(** * Market Service SDK: a shallow embedding of the client's decision logic

    The development follows [market/src/MarketServiceClient.ts] and
    [market/src/types.ts]:

    - [JS]: the JavaScript values the client computes with (numbers as
      binary64 values, strings, [Number], [parseInt], [split]);
    - [Types]: the declarations of [types.ts];
    - [Client]: the functions and methods of [MarketServiceClient.ts],
      with the client instance as an explicit state;
    - the facts proved about them, claim by claim. *)

From Stdlib Require Import ZArith Lia List Bool Ascii String.
From stdpp Require Import gmap strings list.
Import ListNotations.

Open Scope Z_scope.

(* ================================================================== *)
(** * Part I: definitions                                              *)
(* ================================================================== *)

(** ** JavaScript values *)

Module JS.

(** *** Numbers

    A JavaScript number is an IEEE 754 binary64 value.  Every finite
    binary64 value is an integer multiple of [2^-1074], the smallest
    subnormal; [Finite k] stands for [k * 2^-1074].  The representation
    is canonical: two finite numbers are equal in JavaScript exactly when
    their [k] are equal.  The sign of zero is not kept ([-0] and [+0] are
    both [Finite 0]); none of the modelled code can tell them apart. *)

Inductive number : Type :=
| NaN
| Infinity (negative : bool)
| Finite (k : Z).

(** One, in units of [2^-1074]. *)
Definition unit : Z := 2 ^ 1074.

(** The first magnitude, in units, that no longer rounds to a finite
    binary64 value ([2^1024]). *)
Definition overflow : Z := 2 ^ (1024 + 1074).

(** Round-to-nearest, ties-to-even, of the non-negative rational [n / d]
    (both in units) to a multiple of the spacing of binary64 values at
    that magnitude: one unit up to 53 significant bits, [2^shift] units
    above. *)
Definition round_units (n d : Z) : Z :=
  let q := n / d in
  let shift := Z.max 0 (Z.log2 q + 1 - 53) in
  let d' := d * 2 ^ shift in
  let m := n / d' in
  let r := n mod d' in
  let m' := match 2 * r ?= d' with
            | Lt => m
            | Gt => m + 1
            | Eq => if Z.even m then m else m + 1
            end in
  m' * 2 ^ shift.

(** The number nearest to [(-1)^negative * n / d], for [0 <= n], [0 < d]. *)
Definition of_ratio (negative : bool) (n d : Z) : number :=
  let u := round_units n d in
  if overflow <=? u then Infinity negative
  else Finite (if negative then - u else u).

(** The number nearest to the integer [z]. *)
Definition of_Z (z : Z) : number :=
  of_ratio (z <? 0) (Z.abs z * unit) 1.

(** [x + y] *)
Definition add (x y : number) : number :=
  match x, y with
  | NaN, _ | _, NaN => NaN
  | Infinity s, Infinity t => if Bool.eqb s t then Infinity s else NaN
  | Infinity s, Finite _ | Finite _, Infinity s => Infinity s
  | Finite a, Finite b => of_ratio (a + b <? 0) (Z.abs (a + b)) 1
  end.

(** [x * y] *)
Definition mul (x y : number) : number :=
  match x, y with
  | NaN, _ | _, NaN => NaN
  | Infinity s, Infinity t => Infinity (xorb s t)
  | Infinity s, Finite k | Finite k, Infinity s =>
      if k =? 0 then NaN else Infinity (xorb s (k <? 0))
  | Finite a, Finite b => of_ratio (a * b <? 0) (Z.abs (a * b)) unit
  end.

(** [x / y]; a zero divisor is taken as [+0]. *)
Definition div (x y : number) : number :=
  match x, y with
  | NaN, _ | _, NaN => NaN
  | Infinity _, Infinity _ => NaN
  | Infinity s, Finite k => Infinity (xorb s (k <? 0))
  | Finite _, Infinity _ => Finite 0
  | Finite a, Finite b =>
      if b =? 0 then (if a =? 0 then NaN else Infinity (a <? 0))
      else of_ratio (xorb (a <? 0) (b <? 0)) (Z.abs a * unit) (Z.abs b)
  end.

(** [x < y]; every comparison with [NaN] is false. *)
Definition lt (x y : number) : bool :=
  match x, y with
  | NaN, _ | _, NaN => false
  | Infinity s, Infinity t => s && negb t
  | Infinity s, Finite _ => s
  | Finite _, Infinity t => negb t
  | Finite a, Finite b => a <? b
  end.

(** [x > y] *)
Definition gt (x y : number) : bool := lt y x.

(** [ToBoolean] on a number: [0] and [NaN] are falsy. *)
Definition truthy_number (x : number) : bool :=
  match x with
  | NaN => false
  | Infinity _ => true
  | Finite k => negb (k =? 0)
  end.

(** *** Strings

    A string is a sequence of code units; the strings the client looks
    at come from HTTP headers and JSON bodies, and a code unit is taken
    as one Latin-1 octet. *)

(** [ToBoolean] on a string: only the empty string is falsy. *)
Definition truthy_string (s : string) : bool :=
  negb (s =? "")%string.

(** A property lookup that may give [undefined]: [Some s] is truthy when
    [s] is non-empty. *)
Definition truthy (v : option string) : bool :=
  match v with
  | Some s => truthy_string s
  | None => false
  end.

(** [v || d] for an optional string. *)
Definition or_else (v : option string) (d : string) : string :=
  match v with
  | Some s => if truthy_string s then s else d
  | None => d
  end.

(** [v || undefined] for an optional string. *)
Definition or_undefined (v : option string) : option string :=
  match v with
  | Some s => if truthy_string s then Some s else None
  | None => None
  end.

(** [s.startsWith(p)] *)
Definition startsWith (s p : string) : bool := String.prefix p s.

(** [s.split('.')]: the head piece and the pieces after it. *)
Fixpoint split_pieces (s : string) : string * list string :=
  match s with
  | EmptyString => (EmptyString, [])
  | String c rest =>
      let (h, t) := split_pieces rest in
      if Ascii.eqb c "." then (EmptyString, h :: t) else (String c h, t)
  end.

Definition split (s : string) : list string :=
  let (h, t) := split_pieces s in h :: t.

(** White space and line terminators, as [StrWhiteSpaceChar] within
    Latin-1: TAB, LF, VT, FF, CR, SP, NBSP. *)
Definition is_white_space (c : ascii) : bool :=
  let n := Z.of_nat (nat_of_ascii c) in
  ((9 <=? n) && (n <=? 13)) || (n =? 32) || (n =? 160).

Fixpoint trim_start (s : string) : string :=
  match s with
  | EmptyString => EmptyString
  | String c rest => if is_white_space c then trim_start rest else s
  end.

(** Drops trailing white space. *)
Fixpoint trim_end (s : string) : string :=
  match s with
  | EmptyString => EmptyString
  | String c rest =>
      match trim_end rest with
      | EmptyString => if is_white_space c then EmptyString else String c EmptyString
      | rest' => String c rest'
      end
  end.

Definition trim (s : string) : string := trim_end (trim_start s).

(** The value of a digit in the given base, when the code unit is one. *)
Definition digit_value (base : Z) (c : ascii) : option Z :=
  let n := Z.of_nat (nat_of_ascii c) in
  let v := if (48 <=? n) && (n <=? 57) then n - 48
           else if (97 <=? n) && (n <=? 102) then n - 87
           else if (65 <=? n) && (n <=? 70) then n - 55
           else 99 in
  if v <? base then Some v else None.

(** Reads the longest run of digits at the head of [s], continuing the
    value [acc]; gives the value, the number of digits read and the rest. *)
Fixpoint take_digits (base : Z) (s : string) (acc : Z) (count : Z) : Z * Z * string :=
  match s with
  | EmptyString => (acc, count, EmptyString)
  | String c rest =>
      match digit_value base c with
      | Some v => take_digits base rest (acc * base + v) (count + 1)
      | None => (acc, count, s)
      end
  end.

(** An optional sign at the head of [s]: whether it is [-], and the rest. *)
Definition take_sign (s : string) : bool * string :=
  match s with
  | EmptyString => (false, s)
  | String c rest =>
      if Ascii.eqb c "+" then (false, rest)
      else if Ascii.eqb c "-" then (true, rest)
      else (false, s)
  end.

(** [ExponentPart_opt] at the end of a literal: the decimal exponent. *)
Definition parse_exponent (s : string) : option Z :=
  match s with
  | EmptyString => Some 0
  | String c rest =>
      if Ascii.eqb c "e" || Ascii.eqb c "E" then
        let '(negative, digits) := take_sign rest in
        match take_digits 10 digits 0 0 with
        | (e, count, EmptyString) =>
            if 0 <? count then Some (if negative then - e else e) else None
        | _ => None
        end
      else None
  end.

(** The number nearest to [m * 10^e], [0 <= m]. *)
Definition of_decimal (negative : bool) (m e : Z) : number :=
  if 0 <=? e then of_ratio negative (m * 10 ^ e * unit) 1
  else of_ratio negative (m * unit) (10 ^ (- e)).

(** [StrUnsignedDecimalLiteral] *)
Definition parse_unsigned_decimal (negative : bool) (s : string) : number :=
  if (s =? "Infinity")%string then Infinity negative else
  let '(int_part, int_count, after_int) := take_digits 10 s 0 0 in
  let '(mantissa, frac_count, after_frac) :=
    match after_int with
    | EmptyString => (int_part, 0, after_int)
    | String c r =>
        if Ascii.eqb c "." then take_digits 10 r int_part 0
        else (int_part, 0, after_int)
    end in
  if 0 <? int_count + frac_count then
    match parse_exponent after_frac with
    | Some e => of_decimal negative mantissa (e - frac_count)
    | None => NaN
    end
  else NaN.

(** [NonDecimalIntegerLiteral]: [0x], [0o] and [0b] literals. *)
Definition parse_non_decimal (s : string) : number :=
  match s with
  | String z (String p digits) =>
      let base :=
        if negb (Ascii.eqb z "0") then 0
        else if Ascii.eqb p "x" || Ascii.eqb p "X" then 16
        else if Ascii.eqb p "o" || Ascii.eqb p "O" then 8
        else if Ascii.eqb p "b" || Ascii.eqb p "B" then 2
        else 0 in
      match take_digits base digits 0 0 with
      | (v, count, EmptyString) => if 0 <? count then of_Z v else NaN
      | _ => NaN
      end
  | _ => NaN
  end.

(** [Number(s)], the abstract operation [StringToNumber]. *)
Definition Number (s : string) : number :=
  match trim s with
  | EmptyString => Finite 0
  | String c r as t =>
      if Ascii.eqb c "+" then parse_unsigned_decimal false r
      else if Ascii.eqb c "-" then parse_unsigned_decimal true r
      else
        match parse_unsigned_decimal false t with
        | NaN => parse_non_decimal t
        | x => x
        end
  end.

(** [parseInt(s, 10)] *)
Definition parseInt10 (s : string) : number :=
  let '(negative, digits) := take_sign (trim_start s) in
  let '(v, count, _) := take_digits 10 digits 0 0 in
  if 0 <? count then of_ratio negative (v * unit) 1 else NaN.

End JS.

(** Numbers are compared as written before they are evaluated. *)
Strategy 100 [JS.of_Z JS.of_ratio JS.of_decimal JS.round_units JS.unit JS.overflow].

(** ** The declarations of [types.ts] *)

Module Types.

Local Open Scope string_scope.

(** [SDKVersionStatus].  [status] is declared as one of five literals,
    but the client stores the header's text unchecked, so it is kept as
    a string; [checkedAt] is the time value of the [Date]. *)
Record SDKVersionStatus : Type := {
  current : string;
  latest : string;
  minimum : string;
  status : string;
  message : option string;
  updateRequired : bool;
  updateAvailable : bool;
  checkedAt : JS.number
}.

(** [VersionChangeCallback].  A callback is a function object, told
    apart by identity ([indexOf] compares references); it is named by
    an identifier, and what it does when called is given separately. *)
Definition VersionChangeCallback : Type := nat.

(** [ServiceEnvironment] *)
Inductive ServiceEnvironment : Type :=
| development
| staging
| production.

Definition ServiceEnvironment_name (env : ServiceEnvironment) : string :=
  match env with
  | development => "development"
  | staging => "staging"
  | production => "production"
  end.

Definition ServiceEnvironment_eqb (a b : ServiceEnvironment) : bool :=
  match a, b with
  | development, development | staging, staging | production, production => true
  | _, _ => false
  end.

(** [SERVICE_URLS] *)
Definition SERVICE_URLS (env : ServiceEnvironment) : string :=
  match env with
  | development => "http://localhost:3002"
  | staging => "https://market-service-staging.dripedge.io"
  | production => "https://market-service.dripedge.io"
  end.

(** [MarketServiceConfig]; an optional property is an [option]. *)
Record MarketServiceConfig : Type := {
  environment : option ServiceEnvironment;
  baseURL : option string;
  apiKey : string;
  jwtToken : option string;
  timeout : option JS.number;
  clientAppName : option string;
  onVersionChange : option VersionChangeCallback
}.

(** [ApiResponse<T>], the response envelope.  [data] is [None] when the
    property is absent or [null]. *)
Inductive EnvelopeStatus : Type :=
| success
| error.

Record ApiResponse (T : Type) : Type := {
  envelope_status : EnvelopeStatus;
  data : option T;
  count : option JS.number;
  envelope_message : option string;
  envelope_error : option string;
  errorCode : option string
}.

Arguments envelope_status {T} _.
Arguments data {T} _.
Arguments count {T} _.
Arguments envelope_message {T} _.
Arguments envelope_error {T} _.
Arguments errorCode {T} _.

(** A property declared [Date | string]. *)
Inductive DateInput : Type :=
| DateObject (time : JS.number)
| DateString (text : string).

Inductive AdderType : Type :=
| percentage
| fixed
| per_square.

(** [CostAdder] *)
Record CostAdder : Type := {
  id : string;
  market_id : string;
  adder_name : string;
  adder_type : AdderType;
  cost_value : JS.number;
  applies_to_retail : bool;
  applies_to_lom : bool;
  county_fips : option string;
  display_on_proposal : bool;
  display_name : option string;
  effective_date : option DateInput;
  expiration_date : option DateInput;
  active : bool;
  created_at : DateInput;
  updated_at : DateInput
}.

(** [MarketServiceError] *)
Record MarketServiceError : Type := {
  error_message : string;
  code : string;
  statusCode : option Z;
  retryAfter : option JS.number
}.

Definition isAuthError (e : MarketServiceError) : bool :=
  existsb (String.eqb (code e))
    ["INVALID_API_KEY"; "EXPIRED_API_KEY"; "MISSING_API_KEY";
     "INVALID_JWT"; "EXPIRED_JWT"; "INSUFFICIENT_PERMISSIONS"].

Definition isRateLimitError (e : MarketServiceError) : bool :=
  code e =? "RATE_LIMITED".

Definition isRetryable (e : MarketServiceError) : bool :=
  isRateLimitError e ||
  match statusCode e with
  | Some n => Z.eqb n 503 || Z.eqb n 504
  | None => false
  end.

(** A call either returns or throws a [MarketServiceError]. *)
Inductive result (A : Type) : Type :=
| Returned (a : A)
| Thrown (e : MarketServiceError).

Arguments Returned {A} a.
Arguments Thrown {A} e.

End Types.

(** ** The client of [MarketServiceClient.ts] *)

Module Client.

Import Types.
Local Open Scope string_scope.

Definition SDK_VERSION : string := "1.1.0".
Definition SDK_NAME : string := "@dripedge/market-service-sdk".

(** *** Configuration *)

(** [resolveBaseURL]: a truthy [baseURL] wins, then the table entry of
    [config.environment || 'development']. *)
Definition resolveBaseURL (config : MarketServiceConfig) : string :=
  let env := match environment config with
             | Some e => e
             | None => development
             end in
  match baseURL config with
  | Some url => if JS.truthy_string url then url else SERVICE_URLS env
  | None => SERVICE_URLS env
  end.

(** [detectEnvironmentFromKey] *)
Definition detectEnvironmentFromKey (apiKey : string) : ServiceEnvironment :=
  if JS.startsWith apiKey "mk_live_" then production else development.

(** [validateKeyEnvironment]: the warnings written to the console. *)
Definition validateKeyEnvironment (apiKey : string) (env : ServiceEnvironment)
  : list string :=
  let keyEnv := detectEnvironmentFromKey apiKey in
  (if ServiceEnvironment_eqb env production
      && negb (ServiceEnvironment_eqb keyEnv production)
   then ["[MarketServiceSDK] Warning: Using test API key (mk_test_) in production environment. Use a production key (mk_live_) for production."]
   else [])
  ++
  (if negb (ServiceEnvironment_eqb env production)
      && ServiceEnvironment_eqb keyEnv production
   then ["[MarketServiceSDK] Warning: Using production API key (mk_live_) in non-production environment. Consider using a test key (mk_test_) for development/staging."]
   else []).

(** *** The transport's view of a call *)

(** The payload of an error response is not looked at. *)
Definition unknown : Type := unit.

(** [AxiosResponse]: body, HTTP status and headers (names in lower
    case, as the transport delivers them). *)
Record AxiosResponse (T : Type) : Type := {
  response_data : ApiResponse T;
  response_status : Z;
  headers : gmap string string
}.

Arguments response_data {T} _.
Arguments response_status {T} _.
Arguments headers {T} _.

(** [AxiosError]: [request] tells whether a request object is attached. *)
Record AxiosError : Type := {
  response : option (AxiosResponse unknown);
  request : bool;
  axios_message : string
}.

(** How the transport settles a call before the interceptors run. *)
Inductive Settled (T : Type) : Type :=
| Fulfilled (r : AxiosResponse T)
| Rejected (e : AxiosError).

Arguments Fulfilled {T} r.
Arguments Rejected {T} e.

(** *** The client instance

    The private and public fields of the class, and two records of what
    the instance has done to its surroundings: [invoked], every call of a
    version callback with its argument, oldest first, and [console], the
    lines passed to [console.warn]. *)
Record Instance : Type := {
  config : MarketServiceConfig;
  versionCallbacks : list VersionChangeCallback;
  versionStatus : option SDKVersionStatus;
  client_environment : ServiceEnvironment;
  client_baseURL : string;
  transport_timeout : JS.number;
  transport_headers : gmap string string;
  invoked : list (VersionChangeCallback * SDKVersionStatus);
  console : list string
}.

Definition set_versionCallbacks (l : list VersionChangeCallback) (c : Instance) : Instance :=
  {| config := config c; versionCallbacks := l; versionStatus := versionStatus c;
     client_environment := client_environment c; client_baseURL := client_baseURL c;
     transport_timeout := transport_timeout c; transport_headers := transport_headers c;
     invoked := invoked c; console := console c |}.

Definition set_versionStatus (s : option SDKVersionStatus) (c : Instance) : Instance :=
  {| config := config c; versionCallbacks := versionCallbacks c; versionStatus := s;
     client_environment := client_environment c; client_baseURL := client_baseURL c;
     transport_timeout := transport_timeout c; transport_headers := transport_headers c;
     invoked := invoked c; console := console c |}.

Definition record_call (cb : VersionChangeCallback) (s : SDKVersionStatus) (c : Instance) : Instance :=
  {| config := config c; versionCallbacks := versionCallbacks c; versionStatus := versionStatus c;
     client_environment := client_environment c; client_baseURL := client_baseURL c;
     transport_timeout := transport_timeout c; transport_headers := transport_headers c;
     invoked := invoked c ++ [(cb, s)]; console := console c |}.

(** The spread of an optional header into the header object. *)
Definition with_header (name : string) (value : option string)
  (h : gmap string string) : gmap string string :=
  match value with
  | Some v => if JS.truthy_string v then <[name := v]> h else h
  | None => h
  end.

(** [new MarketServiceClient(config)] *)
Definition constructor (config : MarketServiceConfig) : result Instance :=
  if negb (JS.truthy_string (apiKey config)) then
    Thrown {| error_message := "API key is required. Obtain one from the DripEdge admin portal.";
              code := "MISSING_API_KEY"; statusCode := None; retryAfter := None |}
  else
    let env := match environment config with
               | Some e => e
               | None => detectEnvironmentFromKey (apiKey config)
               end in
    let url := resolveBaseURL config in
    Returned
      {| config := config;
         versionCallbacks := match onVersionChange config with
                             | Some cb => [cb]
                             | None => []
                             end;
         versionStatus := None;
         client_environment := env;
         client_baseURL := url;
         transport_timeout := match timeout config with
                              | Some t => if JS.truthy_number t then t else JS.of_Z 10000
                              | None => JS.of_Z 10000
                              end;
         transport_headers :=
           with_header "Authorization" (option_map (append "Bearer ") (JS.or_undefined (jwtToken config)))
             (with_header "X-Client-App" (clientAppName config)
                (<["X-API-Key" := apiKey config]>
                   (<["X-Environment" := ServiceEnvironment_name env]>
                      (<["X-SDK-Name" := SDK_NAME]>
                         (<["X-SDK-Version" := SDK_VERSION]>
                            (<["Content-Type" := "application/json"]> ∅))))));
         invoked := [];
         console := validateKeyEnvironment (apiKey config) env |}.

(** *** Version comparison *)

(** [parts[i] || 0] *)
Definition part (parts : list JS.number) (i : nat) : JS.number :=
  match parts !! i with
  | Some x => if JS.truthy_number x then x else JS.Finite 0
  | None => JS.Finite 0
  end.

(** The loop of [compareVersions], from index [i] for [n] more rounds. *)
Fixpoint compareVersions_from (partsA partsB : list JS.number) (i n : nat) : Z :=
  match n with
  | O => 0
  | S n' =>
      let partA := part partsA i in
      let partB := part partsB i in
      if JS.lt partA partB then -1
      else if JS.gt partA partB then 1
      else compareVersions_from partsA partsB (S i) n'
  end.

(** [compareVersions] *)
Definition compareVersions (a b : string) : Z :=
  let partsA := map JS.Number (JS.split a) in
  let partsB := map JS.Number (JS.split b) in
  compareVersions_from partsA partsB 0 3.

(** *** Version-status tracking *)

(** What a version callback does to the client while it runs: the calls
    it makes to [onVersionChange] and to unsubscribe functions. *)
Inductive Action : Type :=
| Subscribe (cb : VersionChangeCallback)
| Unsubscribe (cb : VersionChangeCallback).

(** [this.versionCallbacks.indexOf(callback)] *)
Fixpoint indexOf (l : list VersionChangeCallback) (cb : VersionChangeCallback) : option nat :=
  match l with
  | [] => None
  | x :: rest => if Nat.eqb x cb then Some O else option_map S (indexOf rest cb)
  end.

(** [onVersionChange(callback)]: registers the callback. *)
Definition onVersionChange_push (cb : VersionChangeCallback) (c : Instance) : Instance :=
  set_versionCallbacks (versionCallbacks c ++ [cb]) c.

(** The function [onVersionChange(callback)] returns. *)
Definition unsubscribe (cb : VersionChangeCallback) (c : Instance) : Instance :=
  match indexOf (versionCallbacks c) cb with
  | Some index => set_versionCallbacks (delete index (versionCallbacks c)) c
  | None => c
  end.

Definition perform (c : Instance) (a : Action) : Instance :=
  match a with
  | Subscribe cb => onVersionChange_push cb c
  | Unsubscribe cb => unsubscribe cb c
  end.

Section Callbacks.

(** The body of each callback: what it does for a given status.  A
    callback is taken to return; the client does nothing about one that
    throws. *)
Variable behaviour : VersionChangeCallback -> SDKVersionStatus -> list Action.

(** [cb(newStatus)] *)
Definition call (newStatus : SDKVersionStatus) (cb : VersionChangeCallback)
  (c : Instance) : Instance :=
  fold_left perform (behaviour cb newStatus) (record_call cb newStatus c).

(** [this.versionCallbacks.forEach(...)]: [Array.prototype.forEach] reads
    the length once and then visits the indices below it on the array as
    it is at that moment, passing over an index that is no longer there. *)
Fixpoint forEach_from (newStatus : SDKVersionStatus) (k remaining : nat)
  (c : Instance) : Instance :=
  match remaining with
  | O => c
  | S remaining' =>
      let c' := match versionCallbacks c !! k with
                | Some cb => call newStatus cb c
                | None => c
                end in
      forEach_from newStatus (S k) remaining' c'
  end.

Definition forEach (newStatus : SDKVersionStatus) (c : Instance) : Instance :=
  forEach_from newStatus 0 (length (versionCallbacks c)) c.

(** The status object [parseVersionHeaders] builds; [now] is the clock
    at [new Date()]. *)
Definition newStatus_of (now : JS.number) (h : gmap string string) : SDKVersionStatus :=
  let status := h !! "x-sdk-status" in
  let latest := h !! "x-sdk-latest" in
  let minimum := h !! "x-sdk-minimum" in
  let message := h !! "x-sdk-message" in
  {| current := SDK_VERSION;
     latest := JS.or_else latest SDK_VERSION;
     minimum := JS.or_else minimum "1.0.0";
     status := JS.or_else status "unknown";
     message := JS.or_undefined message;
     updateRequired :=
       match status with
       | Some s => (s =? "unsupported") || (s =? "deprecated")
       | None => false
       end;
     updateAvailable :=
       match latest with
       | Some l => if JS.truthy_string l
                   then Z.ltb (compareVersions SDK_VERSION l) 0
                   else false
       | None => false
       end;
     checkedAt := now |}.

(** The guard [status || latest || minimum]. *)
Definition has_version_headers (h : gmap string string) : bool :=
  JS.truthy (h !! "x-sdk-status") || JS.truthy (h !! "x-sdk-latest")
  || JS.truthy (h !! "x-sdk-minimum").

(** [statusChanged] *)
Definition statusChanged (previous : option SDKVersionStatus)
  (newStatus : SDKVersionStatus) : bool :=
  match previous with
  | None => true
  | Some old =>
      negb (status old =? status newStatus)
      || negb (latest old =? latest newStatus)
  end.

(** [parseVersionHeaders] *)
Definition parseVersionHeaders (now : JS.number) (h : gmap string string)
  (c : Instance) : Instance :=
  if has_version_headers h then
    let newStatus := newStatus_of now h in
    let changed := statusChanged (versionStatus c) newStatus in
    let c := set_versionStatus (Some newStatus) c in
    if changed then forEach newStatus c else c
  else c.

(** *** Errors *)

(** [handleError]: the error it throws. *)
Definition handleError (err : AxiosError) : MarketServiceError :=
  match response err with
  | Some r =>
      let data := response_data r in
      let statusCode := response_status r in
      let retryAfter :=
        match headers r !! "retry-after" with
        | Some v => if JS.truthy_string v then Some (JS.parseInt10 v) else None
        | None => None
        end in
      let code := JS.or_else (errorCode data) "API_ERROR" in
      let code := if Z.eqb statusCode 401 then "INVALID_API_KEY" else code in
      let code := if Z.eqb statusCode 403 then "INSUFFICIENT_PERMISSIONS" else code in
      let code := if Z.eqb statusCode 429 then "RATE_LIMITED" else code in
      {| error_message :=
           JS.or_else (envelope_error data)
             (JS.or_else (envelope_message data) "API request failed");
         code := code;
         statusCode := Some statusCode;
         retryAfter := retryAfter |}
  | None =>
      if request err then
        {| error_message := "No response from Market Service - check network connection";
           code := "NETWORK_ERROR"; statusCode := None; retryAfter := None |}
      else
        {| error_message := if JS.truthy_string (axios_message err)
                            then axios_message err else "Unknown error";
           code := "UNKNOWN_ERROR"; statusCode := None; retryAfter := None |}
  end.

(** The response interceptors around a call of the transport: the state
    after them and what the [await] gives the method. *)
Definition intercept {T : Type} (now : JS.number) (settled : Settled T)
  (c : Instance) : Instance * result (AxiosResponse T) :=
  match settled with
  | Fulfilled r => (parseVersionHeaders now (headers r) c, Returned r)
  | Rejected err =>
      let c' := match response err with
                | Some r => parseVersionHeaders now (headers r) c
                | None => c
                end in
      (c', Thrown (handleError err))
  end.

(** The rest of a method after its [await]. *)
Definition and_then {A B : Type} (x : Instance * result A) (k : A -> result B)
  : Instance * result B :=
  match x with
  | (c, Returned a) => (c, k a)
  | (c, Thrown e) => (c, Thrown e)
  end.

Definition not_found (what : string) : MarketServiceError :=
  {| error_message := what; code := "NOT_FOUND"; statusCode := Some 404;
     retryAfter := None |}.

(** *** Operations

    Each takes the clock at the response and the way the transport
    settled the request it sent.  The payload types are those of
    [types.ts]; nothing here looks inside them, so they are parameters. *)

(** [getMarkets] *)
Definition getMarkets {Market : Type} (now : JS.number)
  (settled : Settled (list Market)) (c : Instance) : Instance * result (list Market) :=
  and_then (intercept now settled c) (fun response =>
    Returned (match data (response_data response) with
              | Some l => l
              | None => []
              end)).

(** [getMarketById] *)
Definition getMarketById {Market : Type} (now : JS.number)
  (settled : Settled Market) (c : Instance) : Instance * result Market :=
  and_then (intercept now settled c) (fun response =>
    match data (response_data response) with
    | None => Thrown (not_found "Market not found")
    | Some m => Returned m
    end).

(** [getMarketByLegacyId] *)
Definition getMarketByLegacyId {Market : Type} (now : JS.number)
  (settled : Settled Market) (c : Instance) : Instance * result Market :=
  and_then (intercept now settled c) (fun response =>
    match data (response_data response) with
    | None => Thrown (not_found "Market not found")
    | Some m => Returned m
    end).

(** [getServiceableCounties] *)
Definition getServiceableCounties {ServiceableCounty : Type} (now : JS.number)
  (settled : Settled (list ServiceableCounty)) (c : Instance)
  : Instance * result (list ServiceableCounty) :=
  and_then (intercept now settled c) (fun response =>
    Returned (match data (response_data response) with
              | Some l => l
              | None => []
              end)).

(** [getCostAdders] *)
Definition getCostAdders (now : JS.number)
  (settled : Settled (list CostAdder)) (c : Instance)
  : Instance * result (list CostAdder) :=
  and_then (intercept now settled c) (fun response =>
    Returned (match data (response_data response) with
              | Some l => l
              | None => []
              end)).

(** [getCounties] *)
Definition getCounties {CountyData : Type} (now : JS.number)
  (settled : Settled (list CountyData)) (c : Instance)
  : Instance * result (list CountyData) :=
  and_then (intercept now settled c) (fun response =>
    Returned (match data (response_data response) with
              | Some l => l
              | None => []
              end)).

(** [getCountyByFips] *)
Definition getCountyByFips {CountyData : Type} (now : JS.number)
  (settled : Settled CountyData) (c : Instance) : Instance * result CountyData :=
  and_then (intercept now settled c) (fun response =>
    match data (response_data response) with
    | None => Thrown (not_found "County not found")
    | Some d => Returned d
    end).

(** [getStateTrends] *)
Definition getStateTrends {StateTrends : Type} (now : JS.number)
  (settled : Settled StateTrends) (c : Instance) : Instance * result StateTrends :=
  and_then (intercept now settled c) (fun response =>
    match data (response_data response) with
    | None => Thrown (not_found "State trends not found")
    | Some d => Returned d
    end).

(** *** Cost adders *)

Inductive QuoteType : Type :=
| retail
| lom.

(** The [options] argument of [getActiveCostAdders]. *)
Record ActiveOptions : Type := {
  quoteType : option QuoteType;
  countyFips : option string
}.

(** [Date.parse]: the time value of a date string, [NaN] when the text
    is not a date. *)
Variable Date_parse : string -> JS.number.

(** The time value of [new Date(d)]. *)
Definition new_Date (d : DateInput) : JS.number :=
  match d with
  | DateObject time => time
  | DateString text => Date_parse text
  end.

(** [ToBoolean] on a [Date | string] property that may be absent. *)
Definition truthy_date (d : option DateInput) : bool :=
  match d with
  | Some (DateObject _) => true
  | Some (DateString text) => JS.truthy_string text
  | None => false
  end.

(** The callback of the [filter] in [getActiveCostAdders]; [now] is the
    time value of the [new Date()] it makes. *)
Definition is_kept (options : option ActiveOptions) (now : JS.number)
  (adder : CostAdder) : bool :=
  if negb (active adder) then false
  else if match options with
          | Some {| quoteType := Some retail |} => negb (applies_to_retail adder)
          | _ => false
          end then false
  else if match options with
          | Some {| quoteType := Some lom |} => negb (applies_to_lom adder)
          | _ => false
          end then false
  else if match options with
          | Some {| countyFips := Some wanted |} =>
              JS.truthy_string wanted
              && match county_fips adder with
                 | Some fips => JS.truthy_string fips && negb (fips =? wanted)
                 | None => false
                 end
          | _ => false
          end then false
  else if truthy_date (effective_date adder)
          && match effective_date adder with
             | Some d => JS.gt (new_Date d) now
             | None => false
             end then false
  else if truthy_date (expiration_date adder)
          && match expiration_date adder with
             | Some d => JS.lt (new_Date d) now
             | None => false
             end then false
  else true.

(** [costAdders.filter(...)]; [clock i] is the time the callback reads
    when it runs for the element at index [i]. *)
Fixpoint filter_from (clock : nat -> JS.number) (i : nat)
  (options : option ActiveOptions) (costAdders : list CostAdder) : list CostAdder :=
  match costAdders with
  | [] => []
  | adder :: rest =>
      if is_kept options (clock i) adder
      then adder :: filter_from clock (S i) options rest
      else filter_from clock (S i) options rest
  end.

(** [getActiveCostAdders] *)
Definition getActiveCostAdders (now : JS.number) (clock : nat -> JS.number)
  (options : option ActiveOptions) (settled : Settled (list CostAdder))
  (c : Instance) : Instance * result (list CostAdder) :=
  and_then (getCostAdders now settled c) (fun costAdders =>
    Returned (filter_from clock 0 options costAdders)).

End Callbacks.

(** An entry of the [breakdown] array. *)
Record BreakdownEntry : Type := {
  name : string;
  type : AdderType;
  cost : JS.number
}.

(** What [calculateCostAdders] returns. *)
Record CostAdderTotals : Type := {
  totalAdderCost : JS.number;
  breakdown : list BreakdownEntry
}.

(** The [switch] on [adder.adder_type]. *)
Definition cost_of (basePrice roofSquares : JS.number) (adder : CostAdder) : JS.number :=
  match adder_type adder with
  | percentage => JS.mul basePrice (JS.div (cost_value adder) (JS.of_Z 100))
  | fixed => cost_value adder
  | per_square => JS.mul (cost_value adder) roofSquares
  end.

(** The entry pushed onto [breakdown] for an adder. *)
Definition entry_of (basePrice roofSquares : JS.number) (adder : CostAdder)
  : BreakdownEntry :=
  {| name := JS.or_else (display_name adder) (adder_name adder);
     type := adder_type adder;
     cost := cost_of basePrice roofSquares adder |}.

(** One round of the [for ... of] loop. *)
Definition calculateCostAdders_step (basePrice roofSquares : JS.number)
  (acc : CostAdderTotals) (adder : CostAdder) : CostAdderTotals :=
  {| totalAdderCost := JS.add (totalAdderCost acc) (cost_of basePrice roofSquares adder);
     breakdown := (breakdown acc ++ [entry_of basePrice roofSquares adder])%list |}.

(** [calculateCostAdders] *)
Definition calculateCostAdders (costAdders : list CostAdder)
  (basePrice roofSquares : JS.number) : CostAdderTotals :=
  fold_left (calculateCostAdders_step basePrice roofSquares) costAdders
    {| totalAdderCost := JS.Finite 0; breakdown := [] |}.

End Client.

(** ** The behaviour the specification describes

    Definitions that follow the words of the specification, to compare
    the client with. *)

Module Spec.

Import Types.
Local Open Scope string_scope.

(** "A live prefix implies production, anything else implies
    development." *)
Definition inferred_environment (apiKey : string) : ServiceEnvironment :=
  if String.prefix "mk_live_" apiKey then production else development.

(** "(a) explicit URL if present; (b) the default URL registered for the
    requested environment; (c) if no environment is given, infer the
    environment from the API key's prefix and use its default." *)
Definition base_url (config : MarketServiceConfig) : string :=
  match baseURL config with
  | Some url => url
  | None =>
      match environment config with
      | Some env => SERVICE_URLS env
      | None => SERVICE_URLS (inferred_environment (apiKey config))
      end
  end.

(** "401 -> invalid-api-key, 403 -> insufficient-permissions, 429 ->
    rate-limited, else a generic API-error code." *)
Definition code_of_status (status : Z) : string :=
  if Z.eqb status 401 then "INVALID_API_KEY"
  else if Z.eqb status 403 then "INSUFFICIENT_PERMISSIONS"
  else if Z.eqb status 429 then "RATE_LIMITED"
  else "API_ERROR".

(** "Extract the envelope's machine code if present; otherwise derive
    from the status code." *)
Definition error_code (machine_code : option string) (status : Z) : string :=
  match machine_code with
  | Some c => c
  | None => code_of_status status
  end.

(** "Compare the new status against the previously stored one by its
    status field and its latest field; if either differs (or there was no
    previous status), treat it as a transition." *)
Definition transition (previous : option SDKVersionStatus)
  (new : SDKVersionStatus) : Prop :=
  match previous with
  | None => True
  | Some old => status old <> status new \/ latest old <> latest new
  end.

Definition transitionb (previous : option SDKVersionStatus)
  (new : SDKVersionStatus) : bool :=
  match previous with
  | None => true
  | Some old =>
      negb (String.eqb (status old) (status new)
            && String.eqb (latest old) (latest new))
  end.

(** "Invoke every registered subscriber, in registration order, passing
    the new status": the calls a sequence of computed statuses leads to,
    the stored status being overwritten each time. *)
Fixpoint notifications (previous : option SDKVersionStatus)
  (subscribers : list VersionChangeCallback) (computed : list SDKVersionStatus)
  : list (VersionChangeCallback * SDKVersionStatus) :=
  match computed with
  | [] => []
  | new :: rest =>
      (if transitionb previous new
       then map (fun cb => (cb, new)) subscribers
       else [])
      ++ notifications (Some new) subscribers rest
  end.

(** "Missing components treated as 0." *)
Definition component (parts : list JS.number) (i : nat) : JS.number :=
  nth i parts (JS.Finite 0).

(** "First unequal component decides; equal on all is equal." *)
Fixpoint first_unequal (pairs : list (JS.number * JS.number)) : Z :=
  match pairs with
  | [] => 0
  | (x, y) :: rest =>
      if JS.lt x y then -1
      else if JS.lt y x then 1
      else first_unequal rest
  end.

(** "Compare up to three numeric components pairwise left to right." *)
Definition compare_parts (partsA partsB : list JS.number) : Z :=
  first_unequal
    (map (fun i => (component partsA i, component partsB i)) [0; 1; 2]%nat).

(** "Split each version string on '.'" and compare the components as
    numbers. *)
Definition compare (a b : string) : Z :=
  compare_parts (map JS.Number (JS.split a)) (map JS.Number (JS.split b)).

(** A component that is not a number counts as 0. *)
Definition or_zero (x : JS.number) : JS.number :=
  match x with
  | JS.NaN => JS.Finite 0
  | _ => x
  end.

Definition compare_lenient (a b : string) : Z :=
  compare_parts (map (fun c => or_zero (JS.Number c)) (JS.split a))
                (map (fun c => or_zero (JS.Number c)) (JS.split b)).

(** The digits 0 to 9. *)
Definition decimal_digit (c : ascii) : bool :=
  let n := Z.of_nat (nat_of_ascii c) in
  (48 <=? n)%Z && (n <=? 57)%Z.

(** The value of a decimal numeral: a non-empty string of digits. *)
Fixpoint numeral_from (s : string) (acc : Z) : option Z :=
  match s with
  | EmptyString => Some acc
  | String c rest =>
      if decimal_digit c
      then numeral_from rest (acc * 10 + (Z.of_nat (nat_of_ascii c) - 48))
      else None
  end.

Definition numeral (s : string) : option Z :=
  match s with
  | EmptyString => None
  | _ => numeral_from s 0
  end.

(** The components of a version whose pieces are all numerals. *)
Fixpoint numerals (pieces : list string) : option (list Z) :=
  match pieces with
  | [] => Some []
  | p :: rest =>
      match numeral p, numerals rest with
      | Some n, Some ns => Some (n :: ns)
      | _, _ => None
      end
  end.

(** The binary64 value of an integer it holds exactly. *)
Definition number_of (n : Z) : JS.number := JS.Finite (n * JS.unit).

(** The order of versions as lists of integers: up to three components,
    a missing one being 0, the first unequal one deciding. *)
Definition sign (c : comparison) : Z :=
  match c with
  | Lt => -1
  | Eq => 0
  | Gt => 1
  end.

Fixpoint lexicographic (pairs : list (Z * Z)) : Z :=
  match pairs with
  | [] => 0
  | (x, y) :: rest =>
      match Z.compare x y with
      | Eq => lexicographic rest
      | c => sign c
      end
  end.

Definition compare_integers (xs ys : list Z) : Z :=
  lexicographic (map (fun i => (nth i xs 0, nth i ys 0)) [0; 1; 2]%nat).

End Spec.

(** ** Runs and sample data *)

Module Scenario.

Import Types Client.
Local Open Scope string_scope.

(** The client handling one response after another: each is the clock
    at its arrival and its headers. *)
Fixpoint handle_all (behaviour : VersionChangeCallback -> SDKVersionStatus -> list Action)
  (responses : list (JS.number * gmap string string)) (c : Instance) : Instance :=
  match responses with
  | [] => c
  | (now, h) :: rest =>
      handle_all behaviour rest (parseVersionHeaders behaviour now h c)
  end.

(** A callback that does nothing to the client. *)
Definition passive : VersionChangeCallback -> SDKVersionStatus -> list Action :=
  fun _ _ => [].

(** Callback 1 unsubscribes itself when called; the others are passive. *)
Definition self_removing : VersionChangeCallback -> SDKVersionStatus -> list Action :=
  fun cb _ => if Nat.eqb cb 1 then [Unsubscribe 1%nat] else [].

(** The callbacks an action list registers, in order. *)
Fixpoint subscriptions (actions : list Action) : list VersionChangeCallback :=
  match actions with
  | [] => []
  | Subscribe cb :: rest => cb :: subscriptions rest
  | Unsubscribe _ :: rest => subscriptions rest
  end.

(** An action list that removes no subscriber. *)
Definition keeps_subscribers (actions : list Action) : Prop :=
  forall cb, ~ In (Unsubscribe cb) actions.

(** One call of each subscriber, in order, with the status [s]. *)
Definition calls_of (s : SDKVersionStatus) (subscribers : list VersionChangeCallback)
  : list (VersionChangeCallback * SDKVersionStatus) :=
  map (fun cb => (cb, s)) subscribers.

(** The response carries the header with a non-empty value. *)
Definition header_present (h : gmap string string) (name : string) : Prop :=
  exists v, h !! name = Some v /\ v <> "".

(** The statuses computed for a sequence of responses. *)
Definition computed (responses : list (JS.number * gmap string string))
  : list SDKVersionStatus :=
  map (fun r => newStatus_of (fst r) (snd r)) responses.

(** A configuration with only an API key. *)
Definition config_of_key (key : string) : MarketServiceConfig :=
  {| environment := None; baseURL := None; apiKey := key; jwtToken := None;
     timeout := None; clientAppName := None; onVersionChange := None |}.

Definition live_key_config : MarketServiceConfig := config_of_key "mk_live_4f9a".

(** A client with subscribers 1 and 2, registered in that order, that
    has seen no version header yet. *)
Definition two_subscribers : Instance :=
  {| config := config_of_key "mk_test_1";
     versionCallbacks := [1; 2]%nat;
     versionStatus := None;
     client_environment := development;
     client_baseURL := SERVICE_URLS development;
     transport_timeout := JS.of_Z 10000;
     transport_headers := ∅;
     invoked := [];
     console := [] |}.

Definition headers_current : gmap string string :=
  {[ "x-sdk-status" := "current"; "x-sdk-latest" := "1.1.0" ]}.

Definition headers_deprecated : gmap string string :=
  {[ "x-sdk-status" := "deprecated"; "x-sdk-latest" := "1.1.0" ]}.

(** Two responses that say the SDK is current, then one that says it is
    deprecated, at times 0, 1 and 2. *)
Definition three_responses : list (JS.number * gmap string string) :=
  [(JS.of_Z 0, headers_current); (JS.of_Z 1, headers_current);
   (JS.of_Z 2, headers_deprecated)].

(** The client [two_subscribers] after a first response that says the
    SDK is current, when callback 1 unsubscribes itself. *)
Definition after_self_removal : Instance :=
  parseVersionHeaders self_removing (JS.of_Z 0) headers_current two_subscribers.

(** An envelope without payload. *)
Definition empty_envelope (T : Type) (envelope_code : option string) : ApiResponse T :=
  {| envelope_status := success; data := None; count := None;
     envelope_message := None; envelope_error := None;
     errorCode := envelope_code |}.

(** A 401 response whose envelope says the key has expired. *)
Definition expired_key_response : AxiosError :=
  {| response := Some {| response_data :=
                           {| envelope_status := error; data := None; count := None;
                              envelope_message := None;
                              envelope_error := Some "API key expired";
                              errorCode := Some "EXPIRED_API_KEY" |};
                         response_status := 401;
                         headers := ∅ |};
     request := true;
     axios_message := "Request failed with status code 401" |}.

(** A 429 response that asks to retry after 30 seconds. *)
Definition rate_limited_response : AxiosError :=
  {| response := Some {| response_data :=
                           {| envelope_status := error; data := None; count := None;
                              envelope_message := Some "Too many requests";
                              envelope_error := None;
                              errorCode := None |};
                         response_status := 429;
                         headers := {[ "retry-after" := "30" ]} |};
     request := true;
     axios_message := "Request failed with status code 429" |}.

(** A 200 response with the given envelope and no headers. *)
Definition ok_response {T : Type} (envelope : ApiResponse T) : AxiosResponse T :=
  {| response_data := envelope; response_status := 200; headers := ∅ |}.

Definition adder (label : string) (kind : AdderType) (value : Z)
  (expires : option DateInput) : CostAdder :=
  {| id := label; market_id := "m-1"; adder_name := label; adder_type := kind;
     cost_value := JS.of_Z value; applies_to_retail := true; applies_to_lom := true;
     county_fips := None; display_on_proposal := true; display_name := None;
     effective_date := None; expiration_date := expires; active := true;
     created_at := DateObject (JS.of_Z 0); updated_at := DateObject (JS.of_Z 0) |}.

(** An adder that expires at time 1000. *)
Definition expiring_adder : CostAdder :=
  adder "storm" fixed 500 (Some (DateObject (JS.of_Z 1000))).

(** A [Date.parse] that knows no date. *)
Definition no_date : string -> JS.number := fun _ => JS.NaN.

(** A 200 response whose envelope carries the given cost adders. *)
Definition adders_response (l : list CostAdder) : AxiosResponse (list CostAdder) :=
  ok_response {| envelope_status := success; data := Some l; count := None;
                 envelope_message := None; envelope_error := None;
                 errorCode := None |}.

(** Two clock readings fall on the same side of each date of an adder. *)
Definition same_side (parse : string -> JS.number) (now1 now2 : JS.number)
  (a : CostAdder) : Prop :=
  (forall d, effective_date a = Some d ->
     JS.gt (new_Date parse d) now1 = JS.gt (new_Date parse d) now2)
  /\ (forall d, expiration_date a = Some d ->
        JS.lt (new_Date parse d) now1 = JS.lt (new_Date parse d) now2).

(** What [calculateCostAdders] reads of an adder. *)
Definition priced_fields (a : CostAdder)
  : AdderType * JS.number * option string * string :=
  (adder_type a, cost_value a, display_name a, adder_name a).

End Scenario.

(** ** The other operations of the client *)

Module Operations.

Import Types Client.
Local Open Scope string_scope.



Section Callbacks.

Variable behaviour : VersionChangeCallback -> SDKVersionStatus -> list Action.

(** [getMarketsByBrand] and [getMarketsByClient] are [getMarkets] with
    other query parameters. *)
















End Callbacks.

(** [getVersionStatus] *)
Definition getVersionStatus (c : Instance) : option SDKVersionStatus :=
  versionStatus c.

(** [getSDKVersion] *)
Definition getSDKVersion (c : Instance) : string := SDK_VERSION.

(** The client together with [this.client.defaults.headers.common], the
    header defaults of the transport that the setters write to.  The
    headers passed to [axios.create] stay in [transport_headers]. *)
Record Session : Type := {
  instance : Instance;
  common : gmap string string
}.

Definition with_jwtToken (token : option string) (cfg : MarketServiceConfig)
  : MarketServiceConfig :=
  {| environment := environment cfg; baseURL := baseURL cfg; apiKey := apiKey cfg;
     jwtToken := token; timeout := timeout cfg; clientAppName := clientAppName cfg;
     onVersionChange := onVersionChange cfg |}.

Definition with_apiKey (key : string) (cfg : MarketServiceConfig)
  : MarketServiceConfig :=
  {| environment := environment cfg; baseURL := baseURL cfg; apiKey := key;
     jwtToken := jwtToken cfg; timeout := timeout cfg; clientAppName := clientAppName cfg;
     onVersionChange := onVersionChange cfg |}.

Definition set_config (cfg : MarketServiceConfig) (c : Instance) : Instance :=
  {| config := cfg; versionCallbacks := versionCallbacks c;
     versionStatus := versionStatus c;
     client_environment := client_environment c; client_baseURL := client_baseURL c;
     transport_timeout := transport_timeout c; transport_headers := transport_headers c;
     invoked := invoked c; console := console c |}.

(** [setJwtToken] *)
Definition setJwtToken (token : string) (s : Session) : Session :=
  {| instance := set_config (with_jwtToken (Some token) (config (instance s))) (instance s);
     common := <["Authorization" := "Bearer " ++ token]> (common s) |}.

(** [clearJwtToken] *)
Definition clearJwtToken (s : Session) : Session :=
  {| instance := set_config (with_jwtToken None (config (instance s))) (instance s);
     common := delete "Authorization" (common s) |}.

(** [setApiKey] *)
Definition setApiKey (key : string) (s : Session) : Session :=
  {| instance := set_config (with_apiKey key (config (instance s))) (instance s);
     common := <["X-API-Key" := key]> (common s) |}.

End Operations.

(** ** Notions used to state the properties of the code *)

Module Notions.

Import Types Client.
Local Open Scope string_scope.

(** What no response may change: configuration, endpoint, transport
    settings and console. *)
Definition fixed_part (c : Instance)
  : MarketServiceConfig * ServiceEnvironment * string * JS.number
    * gmap string string * list string :=
  (config c, client_environment c, client_baseURL c, transport_timeout c,
   transport_headers c, console c).

(** The status computed from the last response that carries version
    headers, or [initial] when none does. *)
Fixpoint last_computed (responses : list (JS.number * gmap string string))
  (initial : option SDKVersionStatus) : option SDKVersionStatus :=
  match responses with
  | [] => initial
  | (now, h) :: rest =>
      last_computed rest
        (if has_version_headers h then Some (newStatus_of now h) else initial)
  end.

(** A status object whose fields are filled in and whose two flags agree
    with its other fields. *)
Definition coherent (s : SDKVersionStatus) : Prop :=
  current s = SDK_VERSION
  /\ latest s <> "" /\ minimum s <> "" /\ status s <> ""
  /\ message s <> Some ""
  /\ (updateRequired s = true <-> status s = "deprecated" \/ status s = "unsupported")
  /\ (updateAvailable s = true <-> (compareVersions (current s) (latest s) < 0)%Z).

(** The three compared components of a version: [parts[i] || 0] for
    [i] = 0, 1, 2. *)
Definition version_key (v : string) : JS.number * JS.number * JS.number :=
  let parts := map JS.Number (JS.split v) in
  (part parts 0, part parts 1, part parts 2).

(** An adder without its two dates. *)
Definition without_dates (a : CostAdder) : CostAdder :=
  {| id := id a; market_id := market_id a; adder_name := adder_name a;
     adder_type := adder_type a; cost_value := cost_value a;
     applies_to_retail := applies_to_retail a; applies_to_lom := applies_to_lom a;
     county_fips := county_fips a; display_on_proposal := display_on_proposal a;
     display_name := display_name a; effective_date := None; expiration_date := None;
     active := active a; created_at := created_at a; updated_at := updated_at a |}.

(** The exact cost of an adder with whole-number value, for a whole
    number of squares; a percentage has none in general. *)
Definition whole_cost (squares : Z) (kind : AdderType) (value : Z) : Z :=
  match kind with
  | per_square => value * squares
  | _ => value
  end.

(** A configuration with every optional property set. *)
Definition full_config : MarketServiceConfig :=
  {| environment := Some staging; baseURL := Some "https://proxy.example";
     apiKey := "mk_live_4f9a"; jwtToken := Some "token-1"; timeout := None;
     clientAppName := Some "prq-roof-cpq"; onVersionChange := Some 7%nat |}.

(** What a setter of credentials leaves alone: everything but the
    configuration. *)
Definition beside_config (c : Instance)
  : list VersionChangeCallback * option SDKVersionStatus * ServiceEnvironment
    * string * JS.number * gmap string string
    * list (VersionChangeCallback * SDKVersionStatus) * list string :=
  (versionCallbacks c, versionStatus c, client_environment c, client_baseURL c,
   transport_timeout c, transport_headers c, invoked c, console c).

(** A session on the two-subscriber client whose header defaults are
    still empty. *)
Definition plain_session : Operations.Session :=
  {| Operations.instance := Scenario.two_subscribers; Operations.common := ∅ |}.



End Notions.

(* ================================================================== *)
(** * Part II: facts                                                   *)
(* ================================================================== *)

(** ** Configuration resolution *)

Section Configuration.

Import Types Client Scenario.
Local Open Scope string_scope.

Lemma truthy_string_true (s : string) : JS.truthy_string s = true <-> s <> "".
Proof.
  unfold JS.truthy_string. destruct (String.eqb_spec s "") as [-> | Hne]; simpl.
  - split; [discriminate | congruence].
  - split; auto.
Qed.

Lemma truthy_string_false (s : string) : JS.truthy_string s = false <-> s = "".
Proof.
  unfold JS.truthy_string. destruct (String.eqb_spec s "") as [-> | Hne]; simpl.
  - split; auto.
  - split; [discriminate | congruence].
Qed.

Lemma constructor_returns (config : MarketServiceConfig) :
  apiKey config <> "" ->
  exists c, constructor config = Returned c
    /\ client_baseURL c = resolveBaseURL config
    /\ client_environment c =
         match environment config with
         | Some e => e
         | None => detectEnvironmentFromKey (apiKey config)
         end.
Proof.
  intros Hkey. unfold constructor.
  apply truthy_string_true in Hkey. rewrite Hkey. simpl.
  eexists. split; [reflexivity | split; reflexivity].
Qed.

(** Without an API key no client is made. *)
Lemma constructor_missing_key (config : MarketServiceConfig) :
  apiKey config = "" ->
  exists e, constructor config = Thrown e /\ code e = "MISSING_API_KEY".
Proof.
  intros Hkey. unfold constructor. rewrite Hkey. simpl.
  eexists. split; reflexivity.
Qed.

(** C1, as the client resolves it.  For every configuration with a
    non-empty API key the constructor returns a client whose base URL
    is: the explicit [baseURL] when one is set and non-empty; otherwise
    the default-table entry of the configured environment; otherwise,
    with no environment configured, the development entry, whatever the
    API key.  The key's prefix decides the client's [environment] field
    only.  The base URL is the documented one except when neither URL nor
    environment is configured and the key has the live prefix. *)
Theorem base_url_priority (config : MarketServiceConfig) :
  apiKey config <> "" ->
  exists c, constructor config = Returned c
    /\ (forall url, baseURL config = Some url -> url <> "" ->
          client_baseURL c = url)
    /\ (forall env, JS.truthy (baseURL config) = false ->
          environment config = Some env ->
          client_baseURL c = SERVICE_URLS env /\ client_environment c = env)
    /\ (JS.truthy (baseURL config) = false -> environment config = None ->
          client_baseURL c = SERVICE_URLS development
          /\ client_environment c = Spec.inferred_environment (apiKey config))
    /\ (baseURL config <> Some "" ->
        (baseURL config = None -> environment config = None ->
           String.prefix "mk_live_" (apiKey config) = false) ->
        client_baseURL c = Spec.base_url config).
Proof.
  intros Hkey.
  destruct (constructor_returns config Hkey) as (c & Hc & Hurl & Henv).
  exists c. split; [exact Hc |].
  rewrite Hurl, Henv. unfold resolveBaseURL, Spec.base_url, Spec.inferred_environment,
    detectEnvironmentFromKey, JS.startsWith, JS.truthy.
  split; [| split; [| split]].
  - intros url -> Hne. apply truthy_string_true in Hne. now rewrite Hne.
  - intros env Hfalsy Henvironment. rewrite Henvironment.
    destruct (baseURL config) as [url |]; [rewrite Hfalsy |]; split; reflexivity.
  - intros Hfalsy Henvironment. rewrite Henvironment.
    destruct (baseURL config) as [url |]; [rewrite Hfalsy |]; split; reflexivity.
  - intros Hempty Hlive.
    destruct (baseURL config) as [url |].
    + assert (Hne : url <> "") by congruence.
      apply truthy_string_true in Hne. now rewrite Hne.
    + destruct (environment config) as [env |]; [reflexivity |].
      now rewrite Hlive.
Qed.

Lemma base_url_priority_witness :
  exists c, constructor live_key_config = Returned c
    /\ client_baseURL c = SERVICE_URLS development
    /\ client_environment c = production.
Proof.
  assert (Hkey : apiKey live_key_config <> "") by discriminate.
  destruct (base_url_priority live_key_config Hkey) as (c & Hc & _ & _ & Hdev & _).
  exists c. split; [exact Hc |].
  apply Hdev; reflexivity.
Defined.

(** C1 as stated fails: with only a live key configured the documented
    priority gives the production URL, the client the development one. *)
Lemma base_url_live_key_counterexample :
  apiKey live_key_config <> ""
  /\ exists c, constructor live_key_config = Returned c
       /\ client_baseURL c = "http://localhost:3002"
       /\ Spec.base_url live_key_config = "https://market-service.dripedge.io"
       /\ client_baseURL c <> Spec.base_url live_key_config.
Proof.
  split; [discriminate |].
  eexists. split; [reflexivity |].
  repeat split; discriminate.
Qed.

End Configuration.

(** ** Error classification *)

Section Errors.

Import Types Client Scenario.
Local Open Scope string_scope.

Lemma or_else_present (v : option string) (d s : string) :
  v = Some s -> s <> "" -> JS.or_else v d = s.
Proof.
  intros -> Hne. simpl. apply truthy_string_true in Hne. now rewrite Hne.
Qed.

Lemma or_else_absent (v : option string) (d : string) :
  JS.truthy v = false -> JS.or_else v d = d.
Proof.
  destruct v as [s |]; simpl; [| reflexivity].
  intros ->. reflexivity.
Qed.

(** C2, as the client classifies.  For a failure that carries a
    response, the statuses 401, 403 and 429 give INVALID_API_KEY,
    INSUFFICIENT_PERMISSIONS and RATE_LIMITED whatever the envelope
    holds; for every other status the code is the envelope's machine
    code when it has a non-empty one and API_ERROR otherwise.  So the
    code is the one derived from the status whenever the envelope has no
    machine code, and the HTTP status is carried along. *)
Theorem error_code_by_status (err : AxiosError) (r : AxiosResponse unknown) :
  response err = Some r ->
  let e := handleError err in
  let status := response_status r in
  let machine_code := errorCode (response_data r) in
  (status = 401 -> code e = "INVALID_API_KEY")
  /\ (status = 403 -> code e = "INSUFFICIENT_PERMISSIONS")
  /\ (status = 429 -> code e = "RATE_LIMITED")
  /\ (status <> 401 -> status <> 403 -> status <> 429 ->
      forall c, machine_code = Some c -> c <> "" -> code e = c)
  /\ (status <> 401 -> status <> 403 -> status <> 429 ->
      JS.truthy machine_code = false -> code e = "API_ERROR")
  /\ (JS.truthy machine_code = false -> code e = Spec.code_of_status status)
  /\ statusCode e = Some status.
Proof.
  intros Hr e status machine_code. subst e. unfold handleError. rewrite Hr.
  fold status. fold machine_code. simpl. unfold Spec.code_of_status.
  repeat split.
  - intros ->. reflexivity.
  - intros ->. reflexivity.
  - intros ->. reflexivity.
  - intros H1 H3 H9 c Hc Hne.
    apply Z.eqb_neq in H1, H3, H9. rewrite H1, H3, H9.
    now apply or_else_present.
  - intros H1 H3 H9 Habsent.
    apply Z.eqb_neq in H1, H3, H9. rewrite H1, H3, H9.
    now apply or_else_absent.
  - intros Habsent. rewrite (or_else_absent _ _ Habsent).
    destruct (Z.eqb_spec status 401) as [-> | _]; [reflexivity |].
    destruct (Z.eqb_spec status 403) as [-> | _]; [reflexivity |].
    destruct (Z.eqb_spec status 429) as [-> | _]; reflexivity.
Qed.

Lemma error_code_by_status_witness :
  code (handleError expired_key_response) = "INVALID_API_KEY".
Proof.
  refine (proj1 (error_code_by_status expired_key_response _ eq_refl) _).
  reflexivity.
Defined.

(** C2 as stated fails: a 401 whose envelope carries the machine code
    EXPIRED_API_KEY is reported as INVALID_API_KEY. *)
Lemma error_code_envelope_counterexample :
  exists r, response expired_key_response = Some r
    /\ errorCode (response_data r) = Some "EXPIRED_API_KEY"
    /\ Spec.error_code (errorCode (response_data r)) (response_status r)
       = "EXPIRED_API_KEY"
    /\ code (handleError expired_key_response) = "INVALID_API_KEY"
    /\ code (handleError expired_key_response)
       <> Spec.error_code (errorCode (response_data r)) (response_status r).
Proof.
  eexists. split; [reflexivity |].
  repeat split. discriminate.
Qed.

(** A 429 response with [retry-after: 30]. *)
Example rate_limited_error :
  code (handleError rate_limited_response) = "RATE_LIMITED"
  /\ isRateLimitError (handleError rate_limited_response) = true
  /\ isRetryable (handleError rate_limited_response) = true
  /\ isAuthError (handleError rate_limited_response) = false
  /\ statusCode (handleError rate_limited_response) = Some 429%Z
  /\ retryAfter (handleError rate_limited_response) = Some (JS.of_Z 30)
  /\ error_message (handleError rate_limited_response) = "Too many requests".
Proof. vm_compute. repeat split; reflexivity. Qed.

End Errors.

(** ** Envelope unwrapping *)

Section Unwrapping.

Import Types Client Scenario.
Local Open Scope string_scope.

Variable behaviour : VersionChangeCallback -> SDKVersionStatus -> list Action.

(** What a fetch gives once the transport has fulfilled its request. *)
Lemma and_then_fulfilled {T B : Type} (now : JS.number) (r : AxiosResponse T)
  (c : Instance) (k : AxiosResponse T -> result B) :
  snd (and_then (intercept behaviour now (Fulfilled r) c) k) = k r.
Proof. reflexivity. Qed.

(** C7.  When the transport fulfils the request with an envelope whose
    payload is absent or null, each single-entity fetch (market by id or
    by legacy id, county by FIPS code, state trends) throws a
    MarketServiceError with code NOT_FOUND and status 404 and returns
    nothing, and each list fetch (markets, serviceable counties, cost
    adders, counties) returns the empty list. *)
Theorem absent_payload_unwrapping {T : Type} (now : JS.number) (c : Instance)
  (one : AxiosResponse T) (many : AxiosResponse (list T))
  (adders : AxiosResponse (list CostAdder)) :
  data (response_data one) = None ->
  data (response_data many) = None ->
  data (response_data adders) = None ->
  (forall fetched,
     In fetched [snd (getMarketById behaviour now (Fulfilled one) c);
                 snd (getMarketByLegacyId behaviour now (Fulfilled one) c);
                 snd (getCountyByFips behaviour now (Fulfilled one) c);
                 snd (getStateTrends behaviour now (Fulfilled one) c)] ->
     exists e, fetched = Thrown e /\ code e = "NOT_FOUND" /\ statusCode e = Some 404%Z)
  /\ snd (getMarkets behaviour now (Fulfilled many) c) = Returned []
  /\ snd (getServiceableCounties behaviour now (Fulfilled many) c) = Returned []
  /\ snd (getCounties behaviour now (Fulfilled many) c) = Returned []
  /\ snd (getCostAdders behaviour now (Fulfilled adders) c) = Returned [].
Proof.
  intros Hone Hmany Hadders.
  unfold getMarketById, getMarketByLegacyId, getCountyByFips, getStateTrends,
    getMarkets, getServiceableCounties, getCounties, getCostAdders.
  rewrite !and_then_fulfilled, Hone, Hmany, Hadders.
  split; [| repeat split].
  intros fetched Hin. simpl in Hin.
  destruct Hin as [<- | [<- | [<- | [<- | []]]]];
    eexists; split; try reflexivity; split; reflexivity.
Qed.

End Unwrapping.

Lemma absent_payload_unwrapping_witness :
  snd (Client.getMarkets (Market := string) Scenario.passive (JS.of_Z 0)
         (Client.Fulfilled (Scenario.ok_response (Scenario.empty_envelope _ None)))
         Scenario.two_subscribers)
  = Types.Returned [].
Proof.
  refine (proj1 (proj2 (absent_payload_unwrapping Scenario.passive (T := string)
            (JS.of_Z 0) Scenario.two_subscribers
            (Scenario.ok_response (Scenario.empty_envelope _ None))
            (Scenario.ok_response (Scenario.empty_envelope _ None))
            (Scenario.ok_response (Scenario.empty_envelope _ None))
            eq_refl eq_refl eq_refl))).
Defined.

(** ** Cost-adder aggregation *)

Section Aggregation.

Import Types Client Scenario.
Local Open Scope string_scope.

Lemma calculateCostAdders_fold (basePrice roofSquares : JS.number)
  (l : list CostAdder) (acc : CostAdderTotals) :
  breakdown (fold_left (calculateCostAdders_step basePrice roofSquares) l acc)
  = (breakdown acc ++ map (entry_of basePrice roofSquares) l)%list
  /\ totalAdderCost (fold_left (calculateCostAdders_step basePrice roofSquares) l acc)
     = fold_left JS.add (map (cost_of basePrice roofSquares) l) (totalAdderCost acc).
Proof.
  revert acc. induction l as [| a l IH]; intros acc; simpl.
  - split; [now rewrite app_nil_r | reflexivity].
  - destruct (IH (calculateCostAdders_step basePrice roofSquares acc a)) as [Hb Ht].
    rewrite Hb, Ht. simpl. split; [now rewrite <- app_assoc | reflexivity].
Qed.

(** The breakdown has one entry per adder, in the order of the input;
    the total is the costs added up from 0 in that order. *)
Lemma calculateCostAdders_breakdown (l : list CostAdder) (basePrice roofSquares : JS.number) :
  breakdown (calculateCostAdders l basePrice roofSquares)
  = map (entry_of basePrice roofSquares) l
  /\ totalAdderCost (calculateCostAdders l basePrice roofSquares)
     = fold_left JS.add (map (cost_of basePrice roofSquares) l) (JS.Finite 0).
Proof.
  unfold calculateCostAdders.
  destruct (calculateCostAdders_fold basePrice roofSquares l
              {| totalAdderCost := JS.Finite 0; breakdown := [] |}) as [Hb Ht].
  now rewrite Hb, Ht.
Qed.

(** C9.  For a fixed adder of 500, a percentage adder of 10 and a
    per-square adder of 20, in that order, with base price 10000 and
    quantity 5: the total is 1600 and the breakdown has exactly three
    entries, in the order of the input, with the costs 500, 1000 and
    100.  The numbers are binary64 values: 10 / 100 is rounded, and its
    product with 10000 rounds to 1000 exactly. *)
Theorem cost_adder_sum (a_fixed a_percent a_square : CostAdder) :
  adder_type a_fixed = fixed -> cost_value a_fixed = JS.of_Z 500 ->
  adder_type a_percent = percentage -> cost_value a_percent = JS.of_Z 10 ->
  adder_type a_square = per_square -> cost_value a_square = JS.of_Z 20 ->
  let r := calculateCostAdders [a_fixed; a_percent; a_square]
             (JS.of_Z 10000) (JS.of_Z 5) in
  totalAdderCost r = JS.of_Z 1600
  /\ length (breakdown r) = 3%nat
  /\ breakdown r =
       [ {| name := JS.or_else (display_name a_fixed) (adder_name a_fixed);
            type := fixed; cost := JS.of_Z 500 |};
         {| name := JS.or_else (display_name a_percent) (adder_name a_percent);
            type := percentage; cost := JS.of_Z 1000 |};
         {| name := JS.or_else (display_name a_square) (adder_name a_square);
            type := per_square; cost := JS.of_Z 100 |} ].
Proof.
  intros Tf Vf Tp Vp Ts Vs r.
  destruct (calculateCostAdders_breakdown [a_fixed; a_percent; a_square]
              (JS.of_Z 10000) (JS.of_Z 5)) as [Hb Ht].
  subst r. rewrite Hb, Ht. unfold entry_of, cost_of. cbn [map fold_left length].
  rewrite Tf, Vf, Tp, Vp, Ts, Vs.
  assert (Hpercent : JS.mul (JS.of_Z 10000) (JS.div (JS.of_Z 10) (JS.of_Z 100))
                     = JS.of_Z 1000) by (vm_compute; reflexivity).
  assert (Hsquare : JS.mul (JS.of_Z 20) (JS.of_Z 5) = JS.of_Z 100)
    by (vm_compute; reflexivity).
  rewrite Hpercent, Hsquare.
  split; [vm_compute; reflexivity | split; reflexivity].
Qed.

Lemma cost_adder_sum_witness :
  totalAdderCost
    (calculateCostAdders
       [adder "tear-off" fixed 500 None; adder "waste" percentage 10 None;
        adder "steep" per_square 20 None]
       (JS.of_Z 10000) (JS.of_Z 5))
  = JS.of_Z 1600.
Proof.
  refine (proj1 (cost_adder_sum (adder "tear-off" fixed 500 None)
                   (adder "waste" percentage 10 None)
                   (adder "steep" per_square 20 None)
                   eq_refl eq_refl eq_refl eq_refl eq_refl eq_refl)).
Defined.

End Aggregation.

(** ** Version-status tracking *)

Section Tracker.

Import Types Client Scenario.
Local Open Scope string_scope.

Variable behaviour : VersionChangeCallback -> SDKVersionStatus -> list Action.

(** *** What a callback can change *)

Lemma perform_invoked (c : Instance) (a : Action) :
  invoked (perform c a) = invoked c /\ versionStatus (perform c a) = versionStatus c.
Proof.
  destruct a as [cb | cb]; simpl; [split; reflexivity |].
  unfold unsubscribe. destruct (indexOf (versionCallbacks c) cb); split; reflexivity.
Qed.

Lemma actions_invoked (actions : list Action) (c : Instance) :
  invoked (fold_left perform actions c) = invoked c
  /\ versionStatus (fold_left perform actions c) = versionStatus c.
Proof.
  revert c. induction actions as [| a actions IH]; intros c; simpl.
  - split; reflexivity.
  - destruct (IH (perform c a)) as [Hi Hs], (perform_invoked c a) as [Hi' Hs'].
    split; congruence.
Qed.

Lemma actions_subscribers (actions : list Action) (c : Instance) :
  keeps_subscribers actions ->
  versionCallbacks (fold_left perform actions c)
  = (versionCallbacks c ++ subscriptions actions)%list.
Proof.
  revert c. induction actions as [| a actions IH]; intros c Hkeep; simpl.
  - now rewrite app_nil_r.
  - assert (Hrest : keeps_subscribers actions).
    { intros cb Hin. apply (Hkeep cb). now right. }
    destruct a as [cb | cb].
    + rewrite (IH _ Hrest). simpl. now rewrite <- app_assoc.
    + exfalso. apply (Hkeep cb). now left.
Qed.

Lemma call_invoked (s : SDKVersionStatus) (cb : VersionChangeCallback) (c : Instance) :
  invoked (call behaviour s cb c) = (invoked c ++ [(cb, s)])%list
  /\ versionStatus (call behaviour s cb c) = versionStatus c.
Proof.
  unfold call.
  destruct (actions_invoked (behaviour cb s) (record_call cb s c)) as [Hi Hs].
  rewrite Hi, Hs. split; reflexivity.
Qed.

Lemma call_subscribers (s : SDKVersionStatus) (cb : VersionChangeCallback) (c : Instance) :
  keeps_subscribers (behaviour cb s) ->
  versionCallbacks (call behaviour s cb c)
  = (versionCallbacks c ++ subscriptions (behaviour cb s))%list.
Proof.
  intros Hkeep. unfold call. now rewrite actions_subscribers.
Qed.

(** *** The notification loop *)

(** Calls are only ever added, each with the status being announced, and
    the stored status is left alone. *)
Lemma forEach_from_invoked (s : SDKVersionStatus) (n k : nat) (c : Instance) :
  versionStatus (forEach_from behaviour s k n c) = versionStatus c
  /\ exists calls,
       invoked (forEach_from behaviour s k n c) = (invoked c ++ calls)%list
       /\ Forall (fun x => snd x = s) calls
       /\ (forall cb, (0 < n)%nat -> versionCallbacks c !! k = Some cb -> calls <> []).
Proof.
  revert k c. induction n as [| n IH]; intros k c; simpl.
  - split; [reflexivity |]. exists []. rewrite app_nil_r.
    repeat split; [constructor | lia].
  - destruct (versionCallbacks c !! k) as [cb |] eqn:Hk.
    + destruct (IH (S k) (call behaviour s cb c)) as (Hs & calls & Hi & Hall & _).
      destruct (call_invoked s cb c) as [Hci Hcs].
      split; [congruence |].
      exists ((cb, s) :: calls). rewrite Hi, Hci, <- app_assoc.
      repeat split; [now constructor | discriminate].
    + destruct (IH (S k) c) as (Hs & calls & Hi & Hall & _).
      split; [exact Hs |]. exists calls. repeat split; try assumption.
      intros cb _ Hcb. discriminate.
Qed.

(** When the callbacks still to be visited remove nobody, each of them is
    called once, in order; what they register is appended and not
    visited in this round. *)
Lemma forEach_from_keeping (s : SDKVersionStatus) (rest : list VersionChangeCallback) :
  forall (visited later : list VersionChangeCallback) (c : Instance),
    versionCallbacks c = (visited ++ rest ++ later)%list ->
    (forall cb, In cb rest -> keeps_subscribers (behaviour cb s)) ->
    let c' := forEach_from behaviour s (length visited) (length rest) c in
    invoked c' = (invoked c ++ calls_of s rest)%list
    /\ versionCallbacks c'
       = (visited ++ rest ++ later
          ++ concat (map (fun cb => subscriptions (behaviour cb s)) rest))%list.
Proof.
  induction rest as [| cb rest IH]; intros visited later c Hc Hkeep; simpl.
  - rewrite Hc. simpl. now rewrite !app_nil_r.
  - assert (Hk : versionCallbacks c !! length visited = Some cb).
    { rewrite Hc. rewrite lookup_app_r by lia.
      now replace (length visited - length visited)%nat with 0%nat by lia. }
    rewrite Hk.
    assert (Hcb : keeps_subscribers (behaviour cb s)) by (apply Hkeep; now left).
    destruct (call_invoked s cb c) as [Hci _].
    pose proof (call_subscribers s cb c Hcb) as Hcs.
    specialize (IH (visited ++ [cb])%list
                  (later ++ subscriptions (behaviour cb s))%list
                  (call behaviour s cb c)).
    rewrite length_app in IH. simpl in IH.
    replace (length visited + 1)%nat with (S (length visited)) in IH by lia.
    destruct IH as [Hi Hv].
    + rewrite Hcs, Hc. rewrite <- !app_assoc. reflexivity.
    + intros cb' Hin. apply Hkeep. now right.
    + rewrite Hi, Hv, Hci. unfold calls_of. simpl.
      rewrite <- !app_assoc. split; reflexivity.
Qed.

Lemma forEach_keeping (s : SDKVersionStatus) (c : Instance) :
  (forall cb, In cb (versionCallbacks c) -> keeps_subscribers (behaviour cb s)) ->
  invoked (forEach behaviour s c) = (invoked c ++ calls_of s (versionCallbacks c))%list
  /\ versionCallbacks (forEach behaviour s c)
     = (versionCallbacks c
        ++ concat (map (fun cb => subscriptions (behaviour cb s)) (versionCallbacks c)))%list.
Proof.
  intros Hkeep. unfold forEach.
  destruct (forEach_from_keeping s (versionCallbacks c) [] [] c) as [Hi Hv].
  - simpl. now rewrite app_nil_r.
  - exact Hkeep.
  - simpl in Hi, Hv. split; [exact Hi | exact Hv].
Qed.

(** *** Transitions *)

Lemma statusChanged_transition (previous : option SDKVersionStatus) (new : SDKVersionStatus) :
  statusChanged previous new = true <-> Spec.transition previous new.
Proof.
  destruct previous as [old |]; simpl; [| tauto].
  destruct (String.eqb_spec (status old) (status new)) as [Hs | Hs];
    destruct (String.eqb_spec (latest old) (latest new)) as [Hl | Hl]; simpl;
    split; auto; try discriminate.
  intros [H | H]; contradiction.
Qed.

Lemma statusChanged_transitionb (previous : option SDKVersionStatus) (new : SDKVersionStatus) :
  statusChanged previous new = Spec.transitionb previous new.
Proof.
  destruct previous as [old |]; simpl; [| reflexivity].
  destruct (String.eqb (status old) (status new)), (String.eqb (latest old) (latest new));
    reflexivity.
Qed.

(** The two branches of [parseVersionHeaders] for a response that
    carries version headers. *)
Lemma parseVersionHeaders_changed (now : JS.number) (h : gmap string string) (c : Instance) :
  has_version_headers h = true ->
  statusChanged (versionStatus c) (newStatus_of now h) = true ->
  parseVersionHeaders behaviour now h c
  = forEach behaviour (newStatus_of now h)
      (set_versionStatus (Some (newStatus_of now h)) c).
Proof. intros Hh Hc. unfold parseVersionHeaders. now rewrite Hh, Hc. Qed.

Lemma parseVersionHeaders_unchanged (now : JS.number) (h : gmap string string) (c : Instance) :
  has_version_headers h = true ->
  statusChanged (versionStatus c) (newStatus_of now h) = false ->
  parseVersionHeaders behaviour now h c
  = set_versionStatus (Some (newStatus_of now h)) c.
Proof. intros Hh Hc. unfold parseVersionHeaders. now rewrite Hh, Hc. Qed.

(** The stored status is overwritten whether or not a transition is
    detected. *)
Lemma parseVersionHeaders_stores (now : JS.number) (h : gmap string string) (c : Instance) :
  has_version_headers h = true ->
  versionStatus (parseVersionHeaders behaviour now h c) = Some (newStatus_of now h).
Proof.
  intros Hh.
  destruct (statusChanged (versionStatus c) (newStatus_of now h)) eqn:Hc.
  - rewrite parseVersionHeaders_changed by assumption.
    unfold forEach. now rewrite (proj1 (forEach_from_invoked _ _ _ _)).
  - now rewrite parseVersionHeaders_unchanged.
Qed.

End Tracker.

Section Notification.

Import Types Client Scenario.
Local Open Scope string_scope.

Variable behaviour : VersionChangeCallback -> SDKVersionStatus -> list Action.

Lemma app_grows {A : Type} (l extra : list A) : extra <> [] -> (l ++ extra)%list <> l.
Proof.
  intros Hne Heq. apply Hne.
  apply (app_inv_head l). now rewrite app_nil_r.
Qed.

(** One response that carries version headers: the calls it adds. *)
Lemma parseVersionHeaders_calls (now : JS.number) (h : gmap string string) (c : Instance) :
  has_version_headers h = true ->
  exists calls,
    invoked (parseVersionHeaders behaviour now h c) = (invoked c ++ calls)%list
    /\ Forall (fun x => snd x = newStatus_of now h) calls
    /\ (calls <> [] <->
        Spec.transition (versionStatus c) (newStatus_of now h)
        /\ versionCallbacks c <> []).
Proof.
  intros Hh. set (new := newStatus_of now h).
  destruct (statusChanged (versionStatus c) new) eqn:Hc.
  - rewrite parseVersionHeaders_changed by assumption. fold new.
    unfold forEach.
    destruct (forEach_from_invoked behaviour new
                (length (versionCallbacks (set_versionStatus (Some new) c))) 0
                (set_versionStatus (Some new) c)) as (_ & calls & Hi & Hall & Hne).
    exists calls. simpl in Hi, Hne. split; [exact Hi | split; [exact Hall |]].
    apply statusChanged_transition in Hc.
    destruct (versionCallbacks c) as [| cb l] eqn:Hl.
    + simpl in Hi. split; [| tauto].
      intros Hcalls. exfalso. apply Hcalls.
      apply (app_inv_head (invoked c)). now rewrite app_nil_r.
    + split; [intros _; split; [exact Hc | discriminate] |].
      intros _. apply (Hne cb); [simpl; lia | reflexivity].
  - rewrite parseVersionHeaders_unchanged by assumption.
    exists []. simpl. rewrite app_nil_r. split; [reflexivity | split; [constructor |]].
    split; [congruence |]. intros [Ht _].
    apply statusChanged_transition in Ht. fold new in Ht. congruence.
Qed.

(** A response whose status and latest headers equal those of the
    response before it changes neither field, so nobody is called. *)
Lemma parseVersionHeaders_repeat (now1 now2 : JS.number) (h1 h2 : gmap string string)
  (c : Instance) :
  has_version_headers h1 = true -> has_version_headers h2 = true ->
  h1 !! "x-sdk-status" = h2 !! "x-sdk-status" ->
  h1 !! "x-sdk-latest" = h2 !! "x-sdk-latest" ->
  let c1 := parseVersionHeaders behaviour now1 h1 c in
  parseVersionHeaders behaviour now2 h2 c1
  = set_versionStatus (Some (newStatus_of now2 h2)) c1.
Proof.
  intros H1 H2 Hs Hl c1.
  apply parseVersionHeaders_unchanged; [exact H2 |].
  subst c1. rewrite parseVersionHeaders_stores by assumption.
  unfold statusChanged, newStatus_of. simpl. rewrite Hs, Hl.
  now rewrite !String.eqb_refl.
Qed.

Lemma last_cons_default {A : Type} (l : list A) (x d : A) :
  List.last (x :: l) d = List.last l x.
Proof.
  revert x d. induction l as [| y l IH]; intros x d; [reflexivity |].
  change (List.last (y :: l) d = List.last (y :: l) x).
  now rewrite (IH y d), (IH y x).
Qed.

Lemma concat_map_nil {A B : Type} (l : list A) :
  concat (map (fun _ => @nil B) l) = [].
Proof. induction l; simpl; auto. Qed.

(** One response, when no callback touches the subscriber list. *)
Lemma parseVersionHeaders_passive (now : JS.number) (h : gmap string string) (c : Instance) :
  (forall cb s, behaviour cb s = []) ->
  has_version_headers h = true ->
  let c' := parseVersionHeaders behaviour now h c in
  versionCallbacks c' = versionCallbacks c
  /\ invoked c'
     = (invoked c ++ Spec.notifications (versionStatus c) (versionCallbacks c)
                       [newStatus_of now h])%list.
Proof.
  intros Hpassive Hh c'. subst c'. simpl. rewrite app_nil_r.
  rewrite <- statusChanged_transitionb.
  destruct (statusChanged (versionStatus c) (newStatus_of now h)) eqn:Hc.
  - rewrite parseVersionHeaders_changed by assumption.
    destruct (forEach_keeping behaviour (newStatus_of now h)
                (set_versionStatus (Some (newStatus_of now h)) c)) as [Hi Hv].
    { intros cb _. rewrite Hpassive. intros cb' []. }
    rewrite Hi, Hv. simpl. split; [| reflexivity].
    rewrite (map_ext _ (fun _ => @nil VersionChangeCallback))
      by (intros cb; apply (f_equal subscriptions (Hpassive cb _))).
    now rewrite concat_map_nil, app_nil_r.
  - rewrite parseVersionHeaders_unchanged by assumption. simpl.
    now rewrite app_nil_r.
Qed.

(** C3.  For the responses that carry version headers (the guard of
    [parseVersionHeaders] holds):
    - one response: the stored status becomes the newly computed one in
      every case; subscribers are called exactly when the new status
      differs from the stored one in [status] or [latest], or none was
      stored (and there is a subscriber to call); every call made passes
      the new status; and when no callback removes a subscriber, the
      calls are one per registered subscriber, in registration order;
    - two consecutive responses with the same status and latest headers:
      the second calls nobody and still overwrites the stored status,
      and on a client without a stored status the first one does call;
    - a whole sequence, with callbacks that leave the subscriber list
      alone: the calls made are those of the described transitions, and
      the stored status is the last one computed. *)
Theorem version_change_notification :
  (forall now h c,
     has_version_headers h = true ->
     let new := newStatus_of now h in
     let c' := parseVersionHeaders behaviour now h c in
     versionStatus c' = Some new
     /\ (invoked c' <> invoked c <->
         Spec.transition (versionStatus c) new /\ versionCallbacks c <> [])
     /\ (exists calls, invoked c' = (invoked c ++ calls)%list
                       /\ Forall (fun x => snd x = new) calls)
     /\ (Spec.transition (versionStatus c) new ->
         (forall cb, In cb (versionCallbacks c) -> keeps_subscribers (behaviour cb new)) ->
         invoked c' = (invoked c ++ calls_of new (versionCallbacks c))%list))
  /\ (forall now1 h1 now2 h2 c,
        has_version_headers h1 = true -> has_version_headers h2 = true ->
        h1 !! "x-sdk-status" = h2 !! "x-sdk-status" ->
        h1 !! "x-sdk-latest" = h2 !! "x-sdk-latest" ->
        let c1 := parseVersionHeaders behaviour now1 h1 c in
        let c2 := parseVersionHeaders behaviour now2 h2 c1 in
        invoked c2 = invoked c1
        /\ versionStatus c2 = Some (newStatus_of now2 h2)
        /\ (versionStatus c = None -> versionCallbacks c <> [] ->
            invoked c1 <> invoked c))
  /\ (forall responses c,
        (forall cb s, behaviour cb s = []) ->
        Forall (fun r => has_version_headers (snd r) = true) responses ->
        invoked (handle_all behaviour responses c)
        = (invoked c ++ Spec.notifications (versionStatus c) (versionCallbacks c)
                          (computed responses))%list
        /\ versionStatus (handle_all behaviour responses c)
           = List.last (map Some (computed responses)) (versionStatus c)).
Proof.
  split; [| split].
  - intros now h c Hh new c'.
    destruct (parseVersionHeaders_calls now h c Hh) as (calls & Hi & Hall & Hiff).
    fold new in Hi, Hall, Hiff. fold c' in Hi.
    split; [now apply parseVersionHeaders_stores |].
    split; [| split].
    + rewrite Hi, <- Hiff. split.
      * intros Hne Hnil. apply Hne. rewrite Hnil. now rewrite app_nil_r.
      * apply app_grows.
    + exists calls. split; assumption.
    + intros Ht Hkeep. apply statusChanged_transition in Ht.
      subst c'. rewrite parseVersionHeaders_changed by assumption. fold new.
      now destruct (forEach_keeping behaviour new (set_versionStatus (Some new) c) Hkeep).
  - intros now1 h1 now2 h2 c H1 H2 Hs Hl c1 c2.
    subst c2 c1. rewrite parseVersionHeaders_repeat by assumption.
    split; [reflexivity | split; [reflexivity |]].
    intros Hnone Hsubs.
    destruct (parseVersionHeaders_calls now1 h1 c H1) as (calls & Hi & _ & Hiff).
    rewrite Hi. apply app_grows, Hiff. rewrite Hnone. split; [exact I | exact Hsubs].
  - intros responses c Hpassive.
    revert c. induction responses as [| [now h] responses IH]; intros c Hall.
    + simpl. now rewrite app_nil_r.
    + inversion Hall as [| r rs Hh Hrest]; subst. simpl in Hh.
      destruct (parseVersionHeaders_passive now h c Hpassive Hh) as [Hv Hi].
      destruct (IH (parseVersionHeaders behaviour now h c) Hrest) as [IHi IHs].
      cbn [handle_all]. rewrite IHi, IHs, Hi, Hv.
      rewrite parseVersionHeaders_stores by assumption.
      unfold computed. cbn [map Spec.notifications fst snd].
      rewrite app_nil_r, <- app_assoc. split; [reflexivity |].
      symmetry. apply last_cons_default.
Qed.

(** C4, as the client notifies.  When a response announces a transition
    and no callback registered at that moment removes a subscriber
    while it runs, every subscriber registered when the notification
    began is called exactly once with the new status, in registration
    order; callbacks registered during the round are appended and are
    not called in it. *)
Theorem notification_without_removal (now : JS.number) (h : gmap string string)
  (c : Instance) :
  has_version_headers h = true ->
  Spec.transition (versionStatus c) (newStatus_of now h) ->
  (forall cb, In cb (versionCallbacks c) ->
     keeps_subscribers (behaviour cb (newStatus_of now h))) ->
  let new := newStatus_of now h in
  let c' := parseVersionHeaders behaviour now h c in
  invoked c' = (invoked c ++ calls_of new (versionCallbacks c))%list
  /\ versionCallbacks c'
     = (versionCallbacks c
        ++ concat (map (fun cb => subscriptions (behaviour cb new)) (versionCallbacks c)))%list.
Proof.
  intros Hh Ht Hkeep new c'. subst c'.
  apply statusChanged_transition in Ht.
  rewrite parseVersionHeaders_changed by assumption. fold new.
  apply (forEach_keeping behaviour new (set_versionStatus (Some new) c) Hkeep).
Qed.

End Notification.

Section StatusConstruction.

Import Types Client Scenario.
Local Open Scope string_scope.

Variable behaviour : VersionChangeCallback -> SDKVersionStatus -> list Action.

Lemma truthy_present (h : gmap string string) (name : string) :
  JS.truthy (h !! name) = true <-> header_present h name.
Proof.
  unfold header_present, JS.truthy. destruct (h !! name) as [v |].
  - rewrite truthy_string_true. split.
    + intros Hne. exists v. split; [reflexivity | exact Hne].
    + intros (v' & Hv & Hne). congruence.
  - split; [discriminate |]. intros (v & Hv & _). discriminate.
Qed.

Lemma truthy_absent (h : gmap string string) (name : string) :
  JS.truthy (h !! name) = false <-> ~ header_present h name.
Proof.
  rewrite <- truthy_present. destruct (JS.truthy (h !! name)); split; congruence.
Qed.

Lemma has_version_headers_present (h : gmap string string) :
  has_version_headers h = true <->
  header_present h "x-sdk-status" \/ header_present h "x-sdk-latest"
  \/ header_present h "x-sdk-minimum".
Proof.
  unfold has_version_headers. rewrite !orb_true_iff, !truthy_present. tauto.
Qed.

(** C5.  A header counts as present when the response carries it with a
    non-empty value, which is what the guard tests.  If none of
    x-sdk-status, x-sdk-latest and x-sdk-minimum is present the client
    is left as it was.  If one is, a status is stored with: [current] the
    compiled-in version; [latest] the header, or [current] when absent;
    [minimum] the header, or 1.0.0; [status] the header, or unknown;
    [updateRequired] true exactly for the statuses deprecated and
    unsupported; [updateAvailable] true exactly when a latest header is
    present and the comparison puts [current] below it. *)
Theorem version_status_construction (now : JS.number) (h : gmap string string)
  (c : Instance) :
  (~ header_present h "x-sdk-status" -> ~ header_present h "x-sdk-latest" ->
   ~ header_present h "x-sdk-minimum" ->
   parseVersionHeaders behaviour now h c = c)
  /\ (header_present h "x-sdk-status" \/ header_present h "x-sdk-latest"
      \/ header_present h "x-sdk-minimum" ->
      exists new,
        versionStatus (parseVersionHeaders behaviour now h c) = Some new
        /\ current new = SDK_VERSION
        /\ (forall v, h !! "x-sdk-latest" = Some v -> v <> "" -> latest new = v)
        /\ (~ header_present h "x-sdk-latest" -> latest new = current new)
        /\ (forall v, h !! "x-sdk-minimum" = Some v -> v <> "" -> minimum new = v)
        /\ (~ header_present h "x-sdk-minimum" -> minimum new = "1.0.0")
        /\ (forall v, h !! "x-sdk-status" = Some v -> v <> "" -> status new = v)
        /\ (~ header_present h "x-sdk-status" -> status new = "unknown")
        /\ (updateRequired new = true <->
            status new = "deprecated" \/ status new = "unsupported")
        /\ (updateAvailable new = true <->
            exists v, h !! "x-sdk-latest" = Some v /\ v <> ""
                      /\ (compareVersions SDK_VERSION v < 0)%Z)).
Proof.
  split.
  - intros Hs Hl Hm. apply truthy_absent in Hs, Hl, Hm.
    unfold parseVersionHeaders, has_version_headers. now rewrite Hs, Hl, Hm.
  - intros Hany. apply has_version_headers_present in Hany.
    exists (newStatus_of now h).
    split; [now apply parseVersionHeaders_stores |].
    unfold newStatus_of; cbn [current latest minimum status updateRequired updateAvailable].
    split; [reflexivity |].
    split; [intros v Hv Hne; now apply or_else_present |].
    split; [intros Hl; apply truthy_absent in Hl; now apply or_else_absent |].
    split; [intros v Hv Hne; now apply or_else_present |].
    split; [intros Hm; apply truthy_absent in Hm; now apply or_else_absent |].
    split; [intros v Hv Hne; now apply or_else_present |].
    split; [intros Hs; apply truthy_absent in Hs; now apply or_else_absent |].
    split.
    + destruct (h !! "x-sdk-status") as [s |]; simpl.
      * destruct (String.eqb_spec s "") as [-> | Hne]; simpl.
        -- split; [discriminate | intros [H | H]; discriminate].
        -- apply truthy_string_true in Hne. rewrite Hne.
           rewrite orb_true_iff, !String.eqb_eq. tauto.
      * split; [discriminate | intros [H | H]; discriminate].
    + destruct (h !! "x-sdk-latest") as [l |].
      * destruct (JS.truthy_string l) eqn:Hl.
        -- rewrite Z.ltb_lt. apply truthy_string_true in Hl. split.
           ++ intros Hlt. exists l. split; [reflexivity | split; assumption].
           ++ intros (v & Hv & _ & Hlt). congruence.
        -- apply truthy_string_false in Hl. split; [discriminate |].
           intros (v & Hv & Hne & _). congruence.
      * split; [discriminate |]. intros (v & Hv & _). discriminate.
Qed.

End StatusConstruction.

(** *** Sample runs *)

Lemma headers_current_carry :
  Client.has_version_headers Scenario.headers_current = true.
Proof. vm_compute. reflexivity. Defined.

Lemma headers_deprecated_carry :
  Client.has_version_headers Scenario.headers_deprecated = true.
Proof. vm_compute. reflexivity. Defined.

Lemma passive_keeps (cb : Types.VersionChangeCallback) (s : Types.SDKVersionStatus) :
  Scenario.keeps_subscribers (Scenario.passive cb s).
Proof. intros cb' []. Defined.

Lemma version_status_construction_witness :
  exists new,
    Client.versionStatus
      (Client.parseVersionHeaders Scenario.passive (JS.of_Z 0)
         Scenario.headers_current Scenario.two_subscribers) = Some new
    /\ Types.current new = Client.SDK_VERSION.
Proof.
  destruct (proj2 (version_status_construction Scenario.passive (JS.of_Z 0)
                     Scenario.headers_current Scenario.two_subscribers))
    as (new & Hstored & Hcurrent & _).
  - left. exists "current"%string. split; [vm_compute; reflexivity | discriminate].
  - exists new. split; assumption.
Defined.

Lemma version_change_notification_witness :
  Client.invoked
    (Scenario.handle_all Scenario.passive Scenario.three_responses
       Scenario.two_subscribers)
  = (Client.invoked Scenario.two_subscribers
     ++ Spec.notifications (Client.versionStatus Scenario.two_subscribers)
          (Client.versionCallbacks Scenario.two_subscribers)
          (Scenario.computed Scenario.three_responses))%list.
Proof.
  refine (proj1 (proj2 (proj2 (version_change_notification Scenario.passive))
                   Scenario.three_responses Scenario.two_subscribers _ _)).
  - intros cb s. reflexivity.
  - repeat constructor; first [exact headers_current_carry | exact headers_deprecated_carry].
Defined.

(** Two identical responses and a changed third one: both subscribers
    are called for the first and for the third, nobody for the second. *)
Example three_responses_calls :
  map fst (Client.invoked
             (Scenario.handle_all Scenario.passive Scenario.three_responses
                Scenario.two_subscribers))
  = [1; 2; 1; 2]%nat
  /\ map (fun x => Types.status (snd x))
       (Client.invoked
          (Scenario.handle_all Scenario.passive Scenario.three_responses
             Scenario.two_subscribers))
     = ["current"; "current"; "deprecated"; "deprecated"]%string.
Proof. vm_compute. split; reflexivity. Qed.

Lemma notification_without_removal_witness :
  Client.invoked
    (Client.parseVersionHeaders Scenario.passive (JS.of_Z 0)
       Scenario.headers_current Scenario.two_subscribers)
  = (Client.invoked Scenario.two_subscribers
     ++ Scenario.calls_of (Client.newStatus_of (JS.of_Z 0) Scenario.headers_current)
          (Client.versionCallbacks Scenario.two_subscribers))%list.
Proof.
  refine (proj1 (notification_without_removal Scenario.passive (JS.of_Z 0)
                   Scenario.headers_current Scenario.two_subscribers
                   headers_current_carry I _)).
  intros cb _. apply passive_keeps.
Defined.

(** C4 as stated fails: subscribers 1 and 2 are registered when the
    notification begins; callback 1 unsubscribes itself, the list
    shifts, and subscriber 2 is never called. *)
Lemma self_unsubscribe_skips_next :
  Client.versionCallbacks Scenario.two_subscribers = [1; 2]%nat
  /\ Client.invoked Scenario.after_self_removal
     = [(1%nat, Client.newStatus_of (JS.of_Z 0) Scenario.headers_current)]
  /\ ~ In 2%nat (map fst (Client.invoked Scenario.after_self_removal))
  /\ Client.invoked Scenario.after_self_removal
     <> (Client.invoked Scenario.two_subscribers
         ++ Scenario.calls_of (Client.newStatus_of (JS.of_Z 0) Scenario.headers_current)
              (Client.versionCallbacks Scenario.two_subscribers))%list.
Proof.
  assert (Hcalls : Client.invoked Scenario.after_self_removal
                   = [(1%nat, Client.newStatus_of (JS.of_Z 0) Scenario.headers_current)])
    by (vm_compute; reflexivity).
  rewrite Hcalls.
  split; [reflexivity | split; [reflexivity | split]].
  - cbn [map fst In]. intros [H | []]. discriminate.
  - unfold Scenario.calls_of. cbn [Client.versionCallbacks Scenario.two_subscribers
      Client.invoked map app].
    intros H. apply (f_equal (@length _)) in H. cbn [length] in H. discriminate H.
Qed.

(** ** Numbers and numerals *)

Section Numbers.

Local Open Scope Z_scope.

Lemma unit_pos : 0 < JS.unit.
Proof. unfold JS.unit. apply Z.pow_pos_nonneg; lia. Qed.

(** An integer below [2^53] is a binary64 value: rounding leaves it. *)
Lemma round_units_exact (n : Z) :
  0 <= n < 2 ^ 53 -> JS.round_units (n * JS.unit) 1 = n * JS.unit.
Proof.
  intros [H0 Hlt]. unfold JS.round_units. cbv zeta. rewrite Z.div_1_r, Z.mul_1_l.
  destruct (Z.eq_dec n 0) as [-> | Hn].
  - rewrite Z.mul_0_l. reflexivity.
  - set (L := Z.log2 n).
    assert (HL : 0 <= L <= 52).
    { split; [apply Z.log2_nonneg |].
      assert (L < 53) by (apply Z.log2_lt_pow2; lia). lia. }
    assert (Hlog : Z.log2 (n * JS.unit) = L + 1074).
    { unfold JS.unit. rewrite Z.log2_mul_pow2 by lia. fold L. lia. }
    rewrite Hlog. replace (Z.max 0 (L + 1074 + 1 - 53)) with (L + 1022) by lia.
    assert (Hpow : 0 < 2 ^ (L + 1022)) by (apply Z.pow_pos_nonneg; lia).
    assert (Hsplit : n * JS.unit = n * 2 ^ (52 - L) * 2 ^ (L + 1022)).
    { unfold JS.unit. rewrite <- Z.mul_assoc, <- Z.pow_add_r by lia.
      do 2 f_equal. lia. }
    rewrite Hsplit. rewrite Z.mod_mul, Z.div_mul by lia.
    rewrite Z.mul_0_r. rewrite (proj2 (Z.compare_lt_iff 0 _) Hpow). reflexivity.
Qed.

Lemma below_overflow (n : Z) :
  0 <= n < 2 ^ 53 -> (JS.overflow <=? n * JS.unit) = false.
Proof.
  intros [H0 Hlt]. apply Z.leb_gt. unfold JS.overflow.
  rewrite Z.pow_add_r by lia. fold JS.unit.
  apply Z.mul_lt_mono_pos_r; [apply unit_pos |].
  apply Z.lt_trans with (2 ^ 53); [exact Hlt |].
  apply Z.pow_lt_mono_r; lia.
Qed.

Lemma of_ratio_exact (n : Z) :
  0 <= n < 2 ^ 53 -> JS.of_ratio false (n * JS.unit) 1 = JS.Finite (n * JS.unit).
Proof.
  intros Hn. unfold JS.of_ratio. cbv zeta.
  now rewrite round_units_exact, below_overflow.
Qed.

End Numbers.

Section Numerals.

Local Open Scope Z_scope.

Lemma digit_value_decimal (c : ascii) :
  Spec.decimal_digit c = true ->
  JS.digit_value 10 c = Some (Z.of_nat (nat_of_ascii c) - 48).
Proof.
  unfold Spec.decimal_digit, JS.digit_value. cbv zeta. intros Hd. rewrite Hd.
  apply andb_true_iff in Hd. destruct Hd as [Hlo Hhi].
  apply Z.leb_le in Hlo, Hhi.
  now rewrite (proj2 (Z.ltb_lt _ _)) by lia.
Qed.

Lemma digit_not_white_space (c : ascii) :
  Spec.decimal_digit c = true -> JS.is_white_space c = false.
Proof.
  unfold Spec.decimal_digit, JS.is_white_space. cbv zeta. intros Hd.
  apply andb_true_iff in Hd. destruct Hd as [Hlo Hhi].
  apply Z.leb_le in Hlo, Hhi.
  rewrite (proj2 (Z.leb_gt _ 13)) by lia.
  rewrite (proj2 (Z.eqb_neq _ 32)) by lia.
  rewrite (proj2 (Z.eqb_neq _ 160)) by lia.
  now rewrite andb_false_r.
Qed.

Lemma digit_is_not (c x : ascii) :
  Spec.decimal_digit c = true -> Spec.decimal_digit x = false -> Ascii.eqb c x = false.
Proof.
  intros Hc Hx. destruct (Ascii.eqb_spec c x) as [-> | _]; congruence.
Qed.

Lemma take_digits_numeral (s : string) :
  forall acc count n,
    Spec.numeral_from s acc = Some n ->
    JS.take_digits 10 s acc count
    = (n, count + Z.of_nat (String.length s), EmptyString).
Proof.
  induction s as [| c rest IH]; intros acc count n H; simpl in H |- *.
  - injection H as <-. now rewrite Z.add_0_r.
  - destruct (Spec.decimal_digit c) eqn:Hd; [| discriminate].
    rewrite (digit_value_decimal c Hd), (IH _ (count + 1) _ H).
    do 2 f_equal. lia.
Qed.

Lemma numeral_from_bound (s : string) :
  forall acc n, Spec.numeral_from s acc = Some n -> 0 <= acc -> acc <= n.
Proof.
  induction s as [| c rest IH]; intros acc n H Hacc; simpl in H.
  - injection H as <-. lia.
  - destruct (Spec.decimal_digit c) eqn:Hd; [| discriminate].
    unfold Spec.decimal_digit in Hd. cbv zeta in Hd.
    apply andb_true_iff in Hd. destruct Hd as [Hlo Hhi].
    apply Z.leb_le in Hlo, Hhi.
    specialize (IH _ _ H). lia.
Qed.

Lemma trim_end_numeral (s : string) :
  forall acc n, Spec.numeral_from s acc = Some n -> JS.trim_end s = s.
Proof.
  induction s as [| c rest IH]; intros acc n H; simpl in H |- *; [reflexivity |].
  destruct (Spec.decimal_digit c) eqn:Hd; [| discriminate].
  rewrite (IH _ _ H). destruct rest; [| reflexivity].
  now rewrite (digit_not_white_space c Hd).
Qed.

(** A decimal numeral below [2^53] parses to its value. *)
Lemma Number_numeral (s : string) (n : Z) :
  Spec.numeral s = Some n -> n < 2 ^ 53 -> JS.Number s = JS.Finite (n * JS.unit).
Proof.
  intros H Hlt. destruct s as [| c rest]; [discriminate |].
  unfold Spec.numeral in H.
  assert (Hn : 0 <= n) by (apply (numeral_from_bound _ _ _ H); lia).
  assert (Hd : Spec.decimal_digit c = true).
  { simpl in H. destruct (Spec.decimal_digit c); [reflexivity | discriminate]. }
  unfold JS.Number, JS.trim.
  assert (Hstart : JS.trim_start (String c rest) = String c rest).
  { simpl. now rewrite (digit_not_white_space c Hd). }
  rewrite Hstart, (trim_end_numeral _ _ _ H).
  rewrite (digit_is_not c "+" Hd eq_refl), (digit_is_not c "-" Hd eq_refl).
  unfold JS.parse_unsigned_decimal.
  destruct (String.eqb_spec (String c rest) "Infinity") as [Heq | _].
  { injection Heq as -> _. discriminate Hd. }
  rewrite (take_digits_numeral _ _ 0 _ H). cbv beta iota zeta.
  rewrite (proj2 (Z.ltb_lt 0 _)) by (simpl String.length; lia).
  unfold JS.parse_exponent, JS.of_decimal. cbv beta iota.
  change (0 <=? 0 - 0) with true. cbv iota.
  change (10 ^ (- (0 - 0))) with 1. change (10 ^ (0 - 0)) with 1.
  rewrite Z.mul_1_r.
  now rewrite of_ratio_exact by lia.
Qed.

End Numerals.

(** *** The number model on known values *)

Section KnownValues.

Local Open Scope Z_scope.

(** [0.1] is the binary64 value [3602879701896397 * 2^-55]. *)
Example Number_one_tenth :
  JS.Number "0.1" = JS.Finite (3602879701896397 * 2 ^ (1074 - 55)).
Proof. vm_compute. reflexivity. Qed.

(** [0.1 + 0.2] is [0.30000000000000004] and not [0.3]. *)
Example add_one_tenth_two_tenths :
  JS.add (JS.Number "0.1") (JS.Number "0.2") = JS.Number "0.30000000000000004"
  /\ JS.add (JS.Number "0.1") (JS.Number "0.2") <> JS.Number "0.3".
Proof. vm_compute. split; [reflexivity | discriminate]. Qed.

(** [2^53 + 1] is not a binary64 value; it rounds to [2^53]. *)
Example Number_rounds_to_even :
  JS.Number "9007199254740993" = JS.Number "9007199254740992".
Proof. vm_compute. reflexivity. Qed.

(** The largest finite number, and the overflow to [Infinity]. *)
Example Number_largest :
  JS.Number "1.7976931348623157e308"
  = JS.Finite ((2 ^ 53 - 1) * 2 ^ (971 + 1074))
  /\ JS.Number "1.7976931348623159e308" = JS.Infinity false
  /\ JS.Number "-1e309" = JS.Infinity true.
Proof. vm_compute. repeat split; reflexivity. Qed.

(** The smallest subnormal, and the underflow to zero. *)
Example Number_smallest :
  JS.Number "5e-324" = JS.Finite 1 /\ JS.Number "2e-324" = JS.Finite 0.
Proof. vm_compute. split; reflexivity. Qed.

Example Number_forms :
  JS.Number "" = JS.Finite 0
  /\ JS.Number "  42 " = JS.of_Z 42
  /\ JS.Number "0x1F" = JS.of_Z 31
  /\ JS.Number "1e2" = JS.of_Z 100
  /\ JS.Number "-7" = JS.of_Z (-7)
  /\ JS.Number ".5" = JS.div (JS.of_Z 1) (JS.of_Z 2)
  /\ JS.Number "x" = JS.NaN
  /\ JS.Number "1 2" = JS.NaN
  /\ JS.Number "-0x10" = JS.NaN
  /\ JS.Number "1e" = JS.NaN.
Proof. vm_compute. repeat split; reflexivity. Qed.

Example parseInt10_forms :
  JS.parseInt10 "30" = JS.of_Z 30
  /\ JS.parseInt10 " 12px" = JS.of_Z 12
  /\ JS.parseInt10 "soon" = JS.NaN.
Proof. vm_compute. repeat split; reflexivity. Qed.

Example split_forms :
  JS.split "1.10.0" = ["1"; "10"; "0"]%string
  /\ JS.split "" = [""]%string
  /\ JS.split "1." = ["1"; ""]%string.
Proof. repeat split; reflexivity. Qed.

End KnownValues.

(** ** Version comparison *)

Section Comparison.

Import Types Client.
Local Open Scope Z_scope.

Lemma lookup_map {A B : Type} (f : A -> B) (l : list A) (i : nat) :
  map f l !! i = option_map f (l !! i).
Proof.
  revert i. induction l as [| x l IH]; intros [| i]; simpl; auto.
Qed.

Lemma component_lookup (parts : list JS.number) (i : nat) :
  Spec.component parts i = default (JS.Finite 0) (parts !! i).
Proof.
  unfold Spec.component. revert i.
  induction parts as [| x parts IH]; intros [| i]; simpl; auto.
Qed.

(** [parts[i] || 0] is the component, a missing one being 0, with [NaN]
    turned into 0. *)
Lemma part_or_zero (parts : list JS.number) (i : nat) :
  part parts i = Spec.or_zero (Spec.component parts i).
Proof.
  rewrite component_lookup. unfold part.
  destruct (parts !! i) as [[| s | k] |]; simpl; try reflexivity.
  destruct (Z.eqb_spec k 0) as [-> | _]; reflexivity.
Qed.

Lemma component_or_zero (pieces : list string) (i : nat) :
  Spec.component (map (fun c => Spec.or_zero (JS.Number c)) pieces) i
  = part (map JS.Number pieces) i.
Proof.
  rewrite part_or_zero, !component_lookup, !lookup_map.
  destruct (pieces !! i); reflexivity.
Qed.

(** The three rounds of the loop. *)
Lemma compareVersions_rounds (partsA partsB : list JS.number) :
  compareVersions_from partsA partsB 0 3
  = Spec.first_unequal
      (map (fun i => (part partsA i, part partsB i)) [0; 1; 2]%nat).
Proof. reflexivity. Qed.

Lemma first_unequal_range (pairs : list (JS.number * JS.number)) :
  In (Spec.first_unequal pairs) [-1; 0; 1].
Proof.
  induction pairs as [| [x y] pairs IH]; simpl; [tauto |].
  destruct (JS.lt x y); [tauto |]. destruct (JS.lt y x); tauto.
Qed.

Lemma compareVersions_lenient (a b : string) :
  compareVersions a b = Spec.compare_lenient a b.
Proof.
  unfold compareVersions, Spec.compare_lenient, Spec.compare_parts.
  rewrite compareVersions_rounds. cbn [map].
  now rewrite !component_or_zero.
Qed.

Lemma or_zero_number (x : JS.number) : x <> JS.NaN -> Spec.or_zero x = x.
Proof. destruct x; [congruence | reflexivity | reflexivity]. Qed.

Lemma part_numeric (pieces : list string) (i : nat) :
  (forall c, In c pieces -> JS.Number c <> JS.NaN) ->
  part (map JS.Number pieces) i = Spec.component (map JS.Number pieces) i.
Proof.
  intros Hnum. rewrite part_or_zero. apply or_zero_number.
  rewrite component_lookup, lookup_map.
  destruct (pieces !! i) as [c |] eqn:Hc; simpl; [| discriminate].
  apply Hnum. apply list_elem_of_In. now apply (list_elem_of_lookup_2 _ i).
Qed.

(** *** Numerals *)

Lemma numerals_Number (pieces : list string) :
  forall xs, Spec.numerals pieces = Some xs ->
             Forall (fun x => x < 2 ^ 53) xs ->
             map JS.Number pieces = map Spec.number_of xs.
Proof.
  induction pieces as [| p pieces IH]; intros xs H Hall; simpl in H.
  - injection H as <-. reflexivity.
  - destruct (Spec.numeral p) as [n |] eqn:Hp; [| discriminate].
    destruct (Spec.numerals pieces) as [ns |]; [| discriminate].
    injection H as <-. inversion Hall as [| x l Hx Hl]; subst.
    simpl. now rewrite (Number_numeral p n Hp Hx), (IH ns eq_refl Hl).
Qed.

Lemma part_of_integer (xs : list Z) (i : nat) :
  part (map Spec.number_of xs) i = Spec.number_of (nth i xs 0).
Proof.
  rewrite part_or_zero. unfold Spec.component.
  change (JS.Finite 0) with (Spec.number_of 0). now rewrite map_nth.
Qed.

Lemma compare_of_integers (x y k : Z) :
  (if JS.lt (Spec.number_of x) (Spec.number_of y) then -1
   else if JS.lt (Spec.number_of y) (Spec.number_of x) then 1 else k)
  = match x ?= y with
    | Eq => k
    | c => Spec.sign c
    end.
Proof.
  unfold Spec.number_of, JS.lt. pose proof unit_pos as Hu.
  destruct (Z.compare_spec x y) as [-> | Hlt | Hgt].
  - now rewrite Z.ltb_irrefl.
  - now rewrite (proj2 (Z.ltb_lt _ _)) by (apply Z.mul_lt_mono_pos_r; assumption).
  - rewrite (proj2 (Z.ltb_ge _ _)) by (apply Z.mul_le_mono_nonneg_r; lia).
    now rewrite (proj2 (Z.ltb_lt _ _)) by (apply Z.mul_lt_mono_pos_r; assumption).
Qed.

End Comparison.

Section SemanticComparison.

Import Types Client.
Local Open Scope Z_scope.

(** C6.  When every component of both versions is numeric (parses as a
    number), [compareVersions] is the described comparison: the strings
    are split on the dot, up to three components are compared pairwise
    from the left as numbers, a missing component being 0, the first
    unequal pair decides the sign and three equal pairs give 0.  When
    the components are decimal numerals below 2^53, which binary64 holds
    exactly, that is the order of the versions as integer triples.  The
    four sample comparisons come out as documented. *)
Theorem compareVersions_semantic :
  (forall a b,
     (forall c, In c (JS.split a ++ JS.split b) -> JS.Number c <> JS.NaN) ->
     compareVersions a b = Spec.compare a b)
  /\ (forall a b xs ys,
        Spec.numerals (JS.split a) = Some xs ->
        Spec.numerals (JS.split b) = Some ys ->
        Forall (fun x => x < 2 ^ 53) xs ->
        Forall (fun y => y < 2 ^ 53) ys ->
        compareVersions a b = Spec.compare_integers xs ys)
  /\ compareVersions "1.2.0" "1.10.0" < 0
  /\ compareVersions "1.0.0" "1.0.0" = 0
  /\ compareVersions "2.0.0" "1.9.9" > 0
  /\ compareVersions "1.2" "1.2.0" = 0.
Proof.
  split; [| split].
  - intros a b Hnum.
    unfold compareVersions, Spec.compare, Spec.compare_parts.
    rewrite compareVersions_rounds. cbn [map].
    assert (Ha : forall c, In c (JS.split a) -> JS.Number c <> JS.NaN)
      by (intros c Hc; apply Hnum, in_or_app; tauto).
    assert (Hb : forall c, In c (JS.split b) -> JS.Number c <> JS.NaN)
      by (intros c Hc; apply Hnum, in_or_app; tauto).
    now rewrite !(part_numeric _ _ Ha), !(part_numeric _ _ Hb).
  - intros a b xs ys Ha Hb Hxs Hys.
    unfold compareVersions, Spec.compare_integers.
    rewrite compareVersions_rounds.
    rewrite (numerals_Number _ _ Ha Hxs), (numerals_Number _ _ Hb Hys).
    cbn [map Spec.first_unequal Spec.lexicographic].
    rewrite !part_of_integer, !compare_of_integers. reflexivity.
  - vm_compute. repeat split; reflexivity.
Qed.

Lemma compareVersions_semantic_witness :
  compareVersions "1.2.0" "1.10.0" = Spec.compare_integers [1; 2; 0] [1; 10; 0].
Proof.
  refine (proj1 (proj2 compareVersions_semantic) "1.2.0"%string "1.10.0"%string
            [1; 2; 0] [1; 10; 0] eq_refl eq_refl _ _);
    repeat constructor.
Defined.

(** C10.  [compareVersions] returns for every pair of strings, always
    one of -1, 0 and 1, and it is the described comparison with every
    component that does not parse as a number counted as 0: such a
    component contributes 0 to its pair.  So "1.x.3" and "1.0.3" compare
    equal. *)
Theorem compareVersions_total :
  (forall a b,
     compareVersions a b = Spec.compare_lenient a b
     /\ In (compareVersions a b) [-1; 0; 1])
  /\ (forall a i c,
        JS.split a !! i = Some c -> JS.Number c = JS.NaN ->
        part (map JS.Number (JS.split a)) i = JS.Finite 0)
  /\ compareVersions "1.x.3" "1.0.3" = 0.
Proof.
  split; [| split].
  - intros a b. split; [apply compareVersions_lenient |].
    unfold compareVersions. rewrite compareVersions_rounds.
    apply first_unequal_range.
  - intros a i c Hc Hnan. unfold part.
    now rewrite lookup_map, Hc; simpl; rewrite Hnan.
  - vm_compute. reflexivity.
Qed.

Lemma compareVersions_total_witness :
  part (map JS.Number (JS.split "1.x.3")) 1 = JS.Finite 0.
Proof.
  refine (proj1 (proj2 compareVersions_total) "1.x.3"%string 1%nat "x"%string _ _);
    vm_compute; reflexivity.
Defined.

(** Beyond 2^53 two different numerals can be the same number. *)
Example compareVersions_large_components :
  compareVersions "9007199254740993.0.0" "9007199254740992.0.0" = 0.
Proof. vm_compute. reflexivity. Qed.

End SemanticComparison.

(** ** The aggregation helpers and the clock *)

Section Purity.

Import Types Client Scenario.
Local Open Scope string_scope.

Variable behaviour : VersionChangeCallback -> SDKVersionStatus -> list Action.
Variable Date_parse : string -> JS.number.

Lemma is_kept_same_side (options : option ActiveOptions) (now1 now2 : JS.number)
  (a : CostAdder) :
  same_side Date_parse now1 now2 a ->
  is_kept Date_parse options now1 a = is_kept Date_parse options now2 a.
Proof.
  intros [Heff Hexp]. unfold is_kept.
  destruct (effective_date a) as [d1 |]; [rewrite (Heff d1 eq_refl) |];
    (destruct (expiration_date a) as [d2 |]; [rewrite (Hexp d2 eq_refl) |]);
    reflexivity.
Qed.

Lemma filter_from_same_side (clock1 clock2 : nat -> JS.number)
  (options : option ActiveOptions) (costAdders : list CostAdder) :
  forall i,
    (forall j a, costAdders !! j = Some a ->
                 same_side Date_parse (clock1 (i + j)%nat) (clock2 (i + j)%nat) a) ->
    filter_from Date_parse clock1 i options costAdders
    = filter_from Date_parse clock2 i options costAdders.
Proof.
  induction costAdders as [| a rest IH]; intros i Hside; [reflexivity |].
  cbn [filter_from].
  rewrite (is_kept_same_side options (clock1 i) (clock2 i) a).
  - rewrite (IH (S i)); [reflexivity |].
    intros j b Hb. replace (S i + j)%nat with (i + S j)%nat by lia.
    now apply Hside.
  - replace i with (i + 0)%nat by lia. now apply Hside.
Qed.

Lemma priced_fields_decide (basePrice roofSquares : JS.number) (l1 : list CostAdder) :
  forall l2,
    map priced_fields l1 = map priced_fields l2 ->
    map (entry_of basePrice roofSquares) l1 = map (entry_of basePrice roofSquares) l2
    /\ map (cost_of basePrice roofSquares) l1 = map (cost_of basePrice roofSquares) l2.
Proof.
  induction l1 as [| a l1 IH]; intros [| b l2] H; try discriminate.
  - split; reflexivity.
  - simpl in H. injection H as Ht Hv Hd Hn Hrest.
    destruct (IH l2 Hrest) as [He Hc]. simpl.
    unfold entry_of, cost_of in *. rewrite Ht, Hv, Hd, Hn, He, Hc.
    split; reflexivity.
Qed.

Lemma totals_equal (x y : CostAdderTotals) :
  totalAdderCost x = totalAdderCost y -> breakdown x = breakdown y -> x = y.
Proof. destruct x, y; simpl; intros -> ->; reflexivity. Qed.

(** C8, as the helpers behave.
    - [calculateCostAdders] is pure: its result is decided by the base
      price, the quantity and each adder's type, value and names; no
      clock and no client state enters it.
    - The filter of [getActiveCostAdders] reads the current clock once
      for each adder that passes the other tests.  Given the fetched
      list, the options and those readings it is deterministic, and two
      evaluations agree whenever their readings fall on the same side of
      every effective and expiration date, in particular when the
      adders carry no dates. *)
Theorem aggregation_helpers_determinism :
  (forall l1 l2 basePrice roofSquares,
     map priced_fields l1 = map priced_fields l2 ->
     calculateCostAdders l1 basePrice roofSquares
     = calculateCostAdders l2 basePrice roofSquares)
  /\ (forall clock1 clock2 options costAdders,
        (forall j a, costAdders !! j = Some a ->
                     same_side Date_parse (clock1 j) (clock2 j) a) ->
        filter_from Date_parse clock1 0 options costAdders
        = filter_from Date_parse clock2 0 options costAdders)
  /\ (forall clock1 clock2 options costAdders,
        Forall (fun a => effective_date a = None /\ expiration_date a = None)
          costAdders ->
        filter_from Date_parse clock1 0 options costAdders
        = filter_from Date_parse clock2 0 options costAdders)
  /\ (forall clock1 clock2 options now settled c,
        (forall fetched j a,
           snd (getCostAdders behaviour now settled c) = Returned fetched ->
           fetched !! j = Some a ->
           same_side Date_parse (clock1 j) (clock2 j) a) ->
        getActiveCostAdders behaviour Date_parse now clock1 options settled c
        = getActiveCostAdders behaviour Date_parse now clock2 options settled c).
Proof.
  split; [| split; [| split]].
  - intros l1 l2 basePrice roofSquares Hfields.
    destruct (priced_fields_decide basePrice roofSquares l1 l2 Hfields) as [He Hc].
    destruct (calculateCostAdders_breakdown l1 basePrice roofSquares) as [Hb1 Ht1].
    destruct (calculateCostAdders_breakdown l2 basePrice roofSquares) as [Hb2 Ht2].
    apply totals_equal; congruence.
  - intros clock1 clock2 options costAdders Hside.
    now apply filter_from_same_side.
  - intros clock1 clock2 options costAdders Hnone.
    apply filter_from_same_side. intros j a Ha.
    assert (Hin : In a costAdders)
      by (apply list_elem_of_In; now apply (list_elem_of_lookup_2 _ j)).
    destruct (proj1 (List.Forall_forall _ _) Hnone a Hin) as [Heff Hexp].
    split; intros d Hd; congruence.
  - intros clock1 clock2 options now settled c Hside.
    unfold getActiveCostAdders.
    destruct (getCostAdders behaviour now settled c) as [c' [fetched | e]] eqn:Hfetch;
      [| reflexivity].
    simpl. do 2 f_equal. apply filter_from_same_side.
    intros j a Ha. now apply (Hside fetched).
Qed.

End Purity.

Lemma aggregation_helpers_determinism_witness :
  Client.filter_from Scenario.no_date (fun _ => JS.of_Z 999) 0 None
    [Scenario.adder "tear-off" Types.fixed 500 None]
  = Client.filter_from Scenario.no_date (fun _ => JS.of_Z 1001) 0 None
      [Scenario.adder "tear-off" Types.fixed 500 None].
Proof.
  refine (proj1 (proj2 (proj2 (aggregation_helpers_determinism Scenario.passive
                                 Scenario.no_date)))
            (fun _ => JS.of_Z 999) (fun _ => JS.of_Z 1001) None
            [Scenario.adder "tear-off" Types.fixed 500 None] _).
  repeat constructor.
Defined.

(** C8 as stated fails for the active-adder filter: with the same
    fetched list and the same options, an adder that expires at time
    1000 is kept when the clock reads 999 and dropped when it reads
    1001. *)
Lemma active_filter_reads_clock :
  snd (Client.getActiveCostAdders Scenario.passive Scenario.no_date (JS.of_Z 0)
         (fun _ => JS.of_Z 999) None
         (Client.Fulfilled (Scenario.adders_response [Scenario.expiring_adder]))
         Scenario.two_subscribers)
  = Types.Returned [Scenario.expiring_adder]
  /\ snd (Client.getActiveCostAdders Scenario.passive Scenario.no_date (JS.of_Z 0)
            (fun _ => JS.of_Z 1001) None
            (Client.Fulfilled (Scenario.adders_response [Scenario.expiring_adder]))
            Scenario.two_subscribers)
     = Types.Returned []
  /\ Client.filter_from Scenario.no_date (fun _ => JS.of_Z 999) 0 None
       [Scenario.expiring_adder]
     <> Client.filter_from Scenario.no_date (fun _ => JS.of_Z 1001) 0 None
          [Scenario.expiring_adder].
Proof.
  assert (Hbefore : Client.is_kept Scenario.no_date None (JS.of_Z 999)
                      Scenario.expiring_adder = true) by (vm_compute; reflexivity).
  assert (Hafter : Client.is_kept Scenario.no_date None (JS.of_Z 1001)
                     Scenario.expiring_adder = false) by (vm_compute; reflexivity).
  unfold Client.getActiveCostAdders, Client.getCostAdders.
  cbn [Client.intercept Client.and_then snd Types.data Client.response_data
       Scenario.adders_response Scenario.ok_response Client.filter_from].
  rewrite Hbefore, Hafter.
  split; [reflexivity | split; [reflexivity | discriminate]].
Qed.

(* ================================================================== *)
(** * Part III: further facts about the code                           *)
(* ================================================================== *)

(** ** More about construction *)

Section Construction.

Import Types Client Scenario Operations Notions.
Local Open Scope string_scope.

(** X1.  The constructor refuses exactly the configurations with an empty
    API key; the error is the missing-key one, an authentication error
    without HTTP status that is not retryable, and no client exists.
    Otherwise the client starts without a version status and with no
    call made. *)
Theorem constructor_key_required (cfg : MarketServiceConfig) :
  (apiKey cfg = "" ->
   exists e, constructor cfg = Thrown e
     /\ code e = "MISSING_API_KEY" /\ statusCode e = None /\ retryAfter e = None
     /\ isAuthError e = true /\ isRetryable e = false)
  /\ (apiKey cfg <> "" ->
      exists c, constructor cfg = Returned c
        /\ config c = cfg /\ versionStatus c = None /\ invoked c = []
        /\ versionCallbacks c = match onVersionChange cfg with
                                | Some cb => [cb]
                                | None => []
                                end).
Proof.
  split.
  - intros Hkey. unfold constructor. rewrite Hkey. cbn [JS.truthy_string String.eqb negb].
    eexists. split; [reflexivity |]. repeat split.
  - intros Hkey. apply truthy_string_true in Hkey. unfold constructor. rewrite Hkey.
    cbn [negb]. eexists. split; [reflexivity |]. repeat split.
Qed.

Lemma constructor_key_required_witness :
  exists e, constructor (config_of_key "") = Thrown e /\ code e = "MISSING_API_KEY".
Proof.
  destruct (proj1 (constructor_key_required (config_of_key "")) eq_refl)
    as (e & He & Hcode & _).
  exists e. split; assumption.
Defined.

(** X2.  The key and the environment are checked against each other only
    when an environment is configured: then there is one warning exactly
    when one of the two is production and the other is not.  With no
    environment configured the environment is read off the key and
    nothing is ever warned about.  There are never two warnings. *)
Theorem constructor_warnings (cfg : MarketServiceConfig) (c : Instance) :
  constructor cfg = Returned c ->
  (environment cfg = None -> console c = [])
  /\ (forall env, environment cfg = Some env ->
        (console c = [] <->
         (env = production <-> JS.startsWith (apiKey cfg) "mk_live_" = true)))
  /\ (length (console c) <= 1)%nat.
Proof.
  unfold constructor. destruct (negb (JS.truthy_string (apiKey cfg))); [discriminate |].
  intros Hc. injection Hc as <-. cbn [console].
  unfold validateKeyEnvironment, detectEnvironmentFromKey.
  destruct (JS.startsWith (apiKey cfg) "mk_live_");
    destruct (environment cfg) as [[| |] |]; cbn;
    (split; [try discriminate; reflexivity |]);
    (split; [| lia]);
    intros env Henv; try discriminate; injection Henv as <-;
    (split; [intros H; try discriminate H; split; intros; try discriminate; reflexivity
            | intros [H1 H2]; try reflexivity;
              first [discriminate (H1 eq_refl) | discriminate (H2 eq_refl)]]).
Qed.

Lemma constructor_warnings_witness :
  exists c, constructor live_key_config = Returned c /\ console c = [].
Proof.
  eexists. split; [reflexivity |].
  exact (proj1 (constructor_warnings live_key_config _ eq_refl) eq_refl).
Defined.

Lemma with_header_lookup (name other : string) (value : option string)
  (h : gmap string string) :
  with_header name value h !! other
  = if decide (name = other)
    then match JS.or_undefined value with
         | Some v => Some v
         | None => h !! other
         end
    else h !! other.
Proof.
  unfold with_header, JS.or_undefined.
  destruct value as [v |]; [destruct (JS.truthy_string v) |];
    case_decide; subst; try reflexivity.
  - apply lookup_insert_eq.
  - apply lookup_insert_ne; assumption.
Qed.

(** X3.  The headers given to the transport.  The five identification headers
    are always there, with the API key, the SDK version and name and the
    name of the resolved environment.  The bearer token and the client
    application name are sent exactly when configured with a non-empty
    value.  Nothing else is sent. *)
Theorem constructor_headers (cfg : MarketServiceConfig) (c : Instance) :
  constructor cfg = Returned c ->
  transport_headers c !! "X-API-Key" = Some (apiKey cfg)
  /\ transport_headers c !! "X-SDK-Version" = Some SDK_VERSION
  /\ transport_headers c !! "X-SDK-Name" = Some SDK_NAME
  /\ transport_headers c !! "X-Environment"
     = Some (ServiceEnvironment_name (client_environment c))
  /\ transport_headers c !! "Content-Type" = Some "application/json"
  /\ transport_headers c !! "Authorization"
     = option_map (append "Bearer ") (JS.or_undefined (jwtToken cfg))
  /\ transport_headers c !! "X-Client-App" = JS.or_undefined (clientAppName cfg)
  /\ (forall name, is_Some (transport_headers c !! name) ->
        In name ["X-API-Key"; "X-SDK-Version"; "X-SDK-Name"; "X-Environment";
                 "Content-Type"; "Authorization"; "X-Client-App"]).
Proof.
  unfold constructor. destruct (negb (JS.truthy_string (apiKey cfg))); [discriminate |].
  intros Hc. injection Hc as <-. cbn [transport_headers client_environment].
  assert (Hbearer : forall t, JS.or_undefined (option_map (append "Bearer ")
                                 (JS.or_undefined t))
                              = option_map (append "Bearer ") (JS.or_undefined t)).
  { intros [t |]; [| reflexivity]. cbn. destruct (JS.truthy_string t); reflexivity. }
  repeat split.
  1-7: rewrite !with_header_lookup, ?Hbearer; repeat case_decide; try congruence;
       try discriminate.
  1-5: now simplify_map_eq.
  - destruct (option_map _ _); [reflexivity | now simplify_map_eq].
  - destruct (JS.or_undefined (clientAppName cfg)); [reflexivity | now simplify_map_eq].
  - intros name [v Hv]. rewrite !with_header_lookup, Hbearer in Hv.
    rewrite !lookup_insert, lookup_empty in Hv.
    cbn [In]. repeat case_decide; subst; try tauto. discriminate.
Qed.

Lemma constructor_headers_witness :
  exists c, constructor full_config = Returned c
    /\ transport_headers c !! "Authorization" = Some "Bearer token-1"
    /\ transport_headers c !! "X-Environment" = Some "staging".
Proof.
  eexists. split; [reflexivity |].
  destruct (constructor_headers full_config _ eq_refl)
    as (_ & _ & _ & Henv & _ & Hauth & _).
  split; [exact Hauth | exact Henv].
Defined.

End Construction.

(** ** More about subscriptions and the tracker *)

Section Subscriptions.

Import Types Client Scenario Operations Notions.
Local Open Scope string_scope.

Variable behaviour : VersionChangeCallback -> SDKVersionStatus -> list Action.

Lemma indexOf_split (l : list VersionChangeCallback) (cb : VersionChangeCallback) :
  forall i, indexOf l cb = Some i ->
            exists before after,
              l = (before ++ cb :: after)%list /\ length before = i /\ ~ In cb before.
Proof.
  induction l as [| x l IH]; intros i H; simpl in H; [discriminate |].
  destruct (Nat.eqb_spec x cb) as [-> | Hne].
  - injection H as <-. exists [], l. repeat split. intros [].
  - destruct (indexOf l cb) as [j |]; [| discriminate].
    injection H as <-. destruct (IH j eq_refl) as (before & after & -> & Hlen & Hnot).
    exists (x :: before), after. repeat split; [simpl; now rewrite Hlen |].
    intros [Heq | Hin]; [congruence | contradiction].
Qed.

Lemma indexOf_registered (l : list VersionChangeCallback) (cb : VersionChangeCallback) :
  In cb l -> exists i, indexOf l cb = Some i.
Proof.
  induction l as [| x l IH]; intros Hin; [destruct Hin |]. simpl.
  destruct (Nat.eqb_spec x cb) as [-> | Hne]; [now exists 0%nat |].
  destruct Hin as [Heq | Hin]; [congruence |].
  destruct (IH Hin) as [i ->]. now exists (S i).
Qed.

Lemma indexOf_absent (l : list VersionChangeCallback) (cb : VersionChangeCallback) :
  ~ In cb l -> indexOf l cb = None.
Proof.
  intros Hnot. destruct (indexOf l cb) as [i |] eqn:Hi; [| reflexivity].
  destruct (indexOf_split l cb i Hi) as (before & after & -> & _ & _).
  exfalso. apply Hnot, in_or_app. right. now left.
Qed.

Lemma set_versionCallbacks_same (c : Instance) :
  set_versionCallbacks (versionCallbacks c) c = c.
Proof. destruct c; reflexivity. Qed.

(** X4.  The function returned by [onVersionChange] removes one registration
    of its callback, the oldest one, and keeps the order of all others;
    when the callback is not registered (any more) it changes nothing.
    It never touches the stored status or anything else. *)
Theorem unsubscribe_first_registration (cb : VersionChangeCallback) (c : Instance) :
  (~ In cb (versionCallbacks c) -> unsubscribe cb c = c)
  /\ (In cb (versionCallbacks c) ->
      exists before after,
        versionCallbacks c = (before ++ cb :: after)%list
        /\ ~ In cb before
        /\ versionCallbacks (unsubscribe cb c) = (before ++ after)%list)
  /\ versionStatus (unsubscribe cb c) = versionStatus c
  /\ invoked (unsubscribe cb c) = invoked c
  /\ fixed_part (unsubscribe cb c) = fixed_part c.
Proof.
  unfold unsubscribe. split; [| split].
  - intros Hnot. now rewrite (indexOf_absent _ _ Hnot).
  - intros Hin. destruct (indexOf_registered _ _ Hin) as [i Hi]. rewrite Hi.
    destruct (indexOf_split _ _ _ Hi) as (before & after & Hl & Hlen & Hnot).
    exists before, after. split; [exact Hl | split; [exact Hnot |]].
    cbn [versionCallbacks set_versionCallbacks]. rewrite Hl at 1. subst i.
    apply delete_middle.
  - destruct (indexOf (versionCallbacks c) cb); repeat split.
Qed.

Lemma unsubscribe_first_registration_witness :
  versionCallbacks (unsubscribe 1%nat two_subscribers) = [2%nat].
Proof.
  destruct (proj1 (proj2 (unsubscribe_first_registration 1%nat two_subscribers)))
    as (before & after & Hl & Hnot & Hrest).
  - now left.
  - reflexivity.
Defined.

(** X5.  Subscribing and then calling the returned function gives the client
    back as it was when the callback was not registered before.  When it
    was, the older registration is the one that goes and the new one
    stays at the end; the subscribers are the same up to order. *)
Theorem subscribe_unsubscribe (cb : VersionChangeCallback) (c : Instance) :
  versionCallbacks (onVersionChange_push cb c) = (versionCallbacks c ++ [cb])%list
  /\ (~ In cb (versionCallbacks c) ->
      unsubscribe cb (onVersionChange_push cb c) = c)
  /\ (forall before after,
        versionCallbacks c = (before ++ cb :: after)%list -> ~ In cb before ->
        versionCallbacks (unsubscribe cb (onVersionChange_push cb c))
        = (before ++ after ++ [cb])%list)
  /\ versionCallbacks (unsubscribe cb (onVersionChange_push cb c))
     ≡ₚ versionCallbacks c.
Proof.
  assert (Hfresh : ~ In cb (versionCallbacks c) ->
                   unsubscribe cb (onVersionChange_push cb c) = c).
  { intros Hnot. unfold unsubscribe, onVersionChange_push.
    cbn [versionCallbacks set_versionCallbacks].
    assert (Hi : indexOf (versionCallbacks c ++ [cb]) cb
                 = Some (length (versionCallbacks c))).
    { induction (versionCallbacks c) as [| x l IH]; simpl.
      - now rewrite Nat.eqb_refl.
      - destruct (Nat.eqb_spec x cb) as [-> | _];
          [exfalso; apply Hnot; now left |].
        rewrite IH; [reflexivity |]. intros Hin. apply Hnot. now right. }
    rewrite Hi. rewrite <- (app_nil_r (versionCallbacks c ++ [cb])).
    rewrite <- app_assoc. cbn [app]. rewrite delete_middle, app_nil_r.
    destruct c; reflexivity. }
  assert (Hold : forall before after,
             versionCallbacks c = (before ++ cb :: after)%list -> ~ In cb before ->
             versionCallbacks (unsubscribe cb (onVersionChange_push cb c))
             = (before ++ after ++ [cb])%list).
  { intros before after Hl Hnot. unfold unsubscribe, onVersionChange_push.
    cbn [versionCallbacks set_versionCallbacks]. rewrite Hl.
    assert (Hi : indexOf ((before ++ cb :: after) ++ [cb]) cb = Some (length before)).
    { clear Hl. induction before as [| x l IH]; simpl.
      - now rewrite Nat.eqb_refl.
      - destruct (Nat.eqb_spec x cb) as [-> | _];
          [exfalso; apply Hnot; now left |].
        rewrite IH; [reflexivity |]. intros Hin. apply Hnot. now right. }
    rewrite Hi. cbn [versionCallbacks]. rewrite <- app_assoc. cbn [app].
    apply delete_middle. }
  split; [reflexivity | split; [exact Hfresh | split; [exact Hold |]]].
  destruct (in_dec Nat.eq_dec cb (versionCallbacks c)) as [Hin | Hnot].
  - destruct (indexOf_registered _ _ Hin) as [i Hi].
    destruct (indexOf_split _ _ _ Hi) as (before & after & Hl & _ & Hnot).
    rewrite (Hold before after Hl Hnot), Hl.
    apply Permutation_app_head. symmetry. apply Permutation_cons_append.
  - now rewrite (Hfresh Hnot).
Qed.

Lemma subscribe_unsubscribe_witness :
  unsubscribe 3%nat (onVersionChange_push 3%nat two_subscribers) = two_subscribers.
Proof.
  refine (proj1 (proj2 (subscribe_unsubscribe 3%nat two_subscribers)) _).
  intros [H | [H | []]]; discriminate H.
Defined.

(** *** What a notification can and cannot do *)






Lemma forEach_from_bound (s : SDKVersionStatus) (n k : nat) (c : Instance) :
  exists calls,
    invoked (forEach_from behaviour s k n c) = (invoked c ++ calls)%list
    /\ (length calls <= n)%nat
    /\ Forall (fun x => snd x = s) calls.
Proof.
  revert k c. induction n as [| n IH]; intros k c; simpl.
  - exists []. rewrite app_nil_r. repeat split; [simpl; lia | constructor].
  - destruct (versionCallbacks c !! k) as [cb |].
    + destruct (IH (S k) (call behaviour s cb c)) as (calls & Hi & Hlen & Hall).
      destruct (call_invoked behaviour s cb c) as [Hci _].
      exists ((cb, s) :: calls). rewrite Hi, Hci, <- app_assoc.
      repeat split; [simpl; lia | now constructor].
    + destruct (IH (S k) c) as (calls & Hi & Hlen & Hall).
      exists calls. repeat split; [exact Hi | lia | exact Hall].
Qed.

(** X7.  A response leads to at most as many callback calls as there were
    subscribers when it arrived, each with the status computed from it,
    whatever the callbacks do to the subscriber list while they run;
    earlier calls stay on record. *)
Theorem notification_call_bound (now : JS.number) (h : gmap string string)
  (c : Instance) :
  exists calls,
    invoked (parseVersionHeaders behaviour now h c) = (invoked c ++ calls)%list
    /\ (length calls <= length (versionCallbacks c))%nat
    /\ Forall (fun x => snd x = newStatus_of now h) calls.
Proof.
  unfold parseVersionHeaders.
  destruct (has_version_headers h);
    [| exists []; rewrite app_nil_r; repeat split; [simpl; lia | constructor]].
  destruct (statusChanged _ _);
    [| exists []; cbn [invoked set_versionStatus]; rewrite app_nil_r;
       repeat split; [simpl; lia | constructor]].
  unfold forEach.
  destruct (forEach_from_bound (newStatus_of now h)
              (length (versionCallbacks (set_versionStatus (Some (newStatus_of now h)) c)))
              0 (set_versionStatus (Some (newStatus_of now h)) c))
    as (calls & Hi & Hlen & Hall).
  exists calls. repeat split; assumption.
Qed.

Lemma handle_all_status (responses : list (JS.number * gmap string string)) :
  forall c, versionStatus (handle_all behaviour responses c)
            = last_computed responses (versionStatus c).
Proof.
  induction responses as [| [now h] responses IH]; intros c; simpl; [reflexivity |].
  rewrite IH. f_equal.
  destruct (has_version_headers h) eqn:Hh.
  - now apply parseVersionHeaders_stores.
  - unfold parseVersionHeaders. now rewrite Hh.
Qed.

Lemma last_computed_known (responses : list (JS.number * gmap string string)) :
  forall initial, initial <> None -> last_computed responses initial <> None.
Proof.
  induction responses as [| [now h] responses IH]; intros initial Hi; simpl;
    [exact Hi |].
  apply IH. destruct (has_version_headers h); [discriminate | exact Hi].
Qed.

(** X8.  After any responses, whatever the callbacks do, the stored status
    is the one computed from the last response that carried a version
    header, or the earlier one when none did.  So a status, once known,
    never goes back to [null]. *)
Theorem stored_status_is_last_computed
  (responses : list (JS.number * gmap string string)) (c : Instance) :
  getVersionStatus (handle_all behaviour responses c)
  = last_computed responses (versionStatus c)
  /\ (getVersionStatus c <> None ->
      getVersionStatus (handle_all behaviour responses c) <> None).
Proof.
  unfold getVersionStatus. rewrite handle_all_status. split; [reflexivity |].
  apply last_computed_known.
Qed.

End Subscriptions.

Lemma stored_status_is_last_computed_witness :
  Operations.getVersionStatus
    (Scenario.handle_all Scenario.self_removing [(JS.of_Z 1, ∅)]
       Scenario.after_self_removal) <> None.
Proof.
  refine (proj2 (stored_status_is_last_computed Scenario.self_removing
                   [(JS.of_Z 1, ∅)] Scenario.after_self_removal) _).
  unfold Operations.getVersionStatus, Scenario.after_self_removal.
  rewrite (parseVersionHeaders_stores _ _ _ _ headers_current_carry). discriminate.
Defined.

Section StoredStatus.

Import Types Client Scenario Operations Notions.
Local Open Scope string_scope.

Variable behaviour : VersionChangeCallback -> SDKVersionStatus -> list Action.

Lemma or_else_filled (v : option string) (d : string) :
  d <> "" -> JS.or_else v d <> "".
Proof.
  intros Hd. destruct v as [s |]; simpl; [| exact Hd].
  destruct (JS.truthy_string s) eqn:Hs; [| exact Hd].
  now apply truthy_string_true.
Qed.

Lemma compareVersions_own_version : compareVersions SDK_VERSION SDK_VERSION = 0%Z.
Proof. vm_compute. reflexivity. Qed.

Lemma newStatus_of_coherent (now : JS.number) (h : gmap string string) :
  coherent (newStatus_of now h).
Proof.
  unfold coherent, newStatus_of.
  cbn [current latest minimum status message updateRequired updateAvailable].
  split; [reflexivity |].
  split; [apply or_else_filled; discriminate |].
  split; [apply or_else_filled; discriminate |].
  split; [apply or_else_filled; discriminate |].
  split; [| split].
  - destruct (h !! "x-sdk-message") as [m |]; simpl; [| discriminate].
    destruct (JS.truthy_string m) eqn:Hm; [| discriminate].
    apply truthy_string_true in Hm. congruence.
  - destruct (h !! "x-sdk-status") as [s |]; simpl.
    + destruct (String.eqb_spec s "") as [-> | Hne]; simpl.
      * split; [discriminate | intros [H | H]; discriminate].
      * apply truthy_string_true in Hne. rewrite Hne.
        rewrite orb_true_iff, !String.eqb_eq. tauto.
    + split; [discriminate | intros [H | H]; discriminate].
  - destruct (h !! "x-sdk-latest") as [l |]; simpl.
    + destruct (JS.truthy_string l).
      * apply Z.ltb_lt.
      * rewrite compareVersions_own_version. split; [discriminate | lia].
    + rewrite compareVersions_own_version. split; [discriminate | lia].
Qed.

(** X9.  Every status the client ever stores is coherent: [current] is the
    SDK's own version; [latest], [minimum] and [status] are non-empty and
    the message is never the empty string; [updateRequired] holds exactly
    for the statuses deprecated and unsupported; and [updateAvailable]
    holds exactly when the stored [current] compares below the stored
    [latest].  This is so for a client fresh from the constructor after
    any responses, whatever the callbacks do. *)
Theorem stored_status_coherent (cfg : MarketServiceConfig) (c : Instance)
  (responses : list (JS.number * gmap string string)) (s : SDKVersionStatus) :
  constructor cfg = Returned c ->
  getVersionStatus (handle_all behaviour responses c) = Some s ->
  coherent s /\ current s = getSDKVersion c.
Proof.
  intros Hc Hs. unfold getVersionStatus in Hs.
  rewrite handle_all_status in Hs.
  assert (Hstart : versionStatus c = None).
  { unfold constructor in Hc.
    destruct (negb (JS.truthy_string (apiKey cfg))); [discriminate |].
    injection Hc as <-. reflexivity. }
  rewrite Hstart in Hs. clear Hstart Hc.
  assert (Hall : forall initial,
             (forall x, initial = Some x -> coherent x) ->
             last_computed responses initial = Some s -> coherent s).
  { clear Hs. induction responses as [| [now h] rest IH]; intros initial Hi Hl;
      simpl in Hl; [now apply Hi |].
    refine (IH _ _ Hl). intros x Hx.
    destruct (has_version_headers h); [| now apply Hi].
    injection Hx as <-. apply newStatus_of_coherent. }
  assert (Hco : coherent s) by (apply (Hall None); [discriminate | exact Hs]).
  split; [exact Hco | apply Hco].
Qed.

(** X10.  A callback passed as [onVersionChange] in the configuration is the
    first subscriber: the first response that carries a version header
    calls it once, with the status computed from that response, provided
    the callback removes no subscriber while it runs. *)
Theorem configured_callback_first_call (cfg : MarketServiceConfig) (c : Instance)
  (cb : VersionChangeCallback) (now : JS.number) (h : gmap string string) :
  constructor cfg = Returned c ->
  onVersionChange cfg = Some cb ->
  has_version_headers h = true ->
  keeps_subscribers (behaviour cb (newStatus_of now h)) ->
  invoked (parseVersionHeaders behaviour now h c) = [(cb, newStatus_of now h)]
  /\ getVersionStatus (parseVersionHeaders behaviour now h c)
     = Some (newStatus_of now h).
Proof.
  intros Hc Hcb Hh Hkeep. unfold getVersionStatus.
  rewrite parseVersionHeaders_stores by assumption. split; [| reflexivity].
  unfold constructor in Hc.
  destruct (negb (JS.truthy_string (apiKey cfg))); [discriminate |].
  injection Hc as <-. rewrite Hcb.
  rewrite parseVersionHeaders_changed by (assumption || reflexivity).
  match goal with
  | |- invoked (forEach _ _ ?c0) = _ =>
      destruct (forEach_keeping behaviour (newStatus_of now h) c0) as [Hi _]
  end.
  - cbn [versionCallbacks set_versionStatus]. intros cb' [<- | []]. exact Hkeep.
  - rewrite Hi. reflexivity.
Qed.

End StoredStatus.

Lemma stored_status_coherent_witness :
  exists c, Client.constructor Scenario.live_key_config = Types.Returned c
    /\ Notions.coherent (Client.newStatus_of (JS.of_Z 2) Scenario.headers_deprecated).
Proof.
  eexists. split; [reflexivity |].
  refine (proj1 (stored_status_coherent Scenario.passive Scenario.live_key_config _
                   Scenario.three_responses _ eq_refl _)).
  vm_compute. reflexivity.
Defined.

Lemma configured_callback_first_call_witness :
  exists c, Client.constructor Notions.full_config = Types.Returned c
    /\ Client.invoked
         (Client.parseVersionHeaders Scenario.passive (JS.of_Z 0)
            Scenario.headers_current c)
       = [(7%nat, Client.newStatus_of (JS.of_Z 0) Scenario.headers_current)].
Proof.
  eexists. split; [reflexivity |].
  refine (proj1 (configured_callback_first_call Scenario.passive Notions.full_config _
                   7%nat (JS.of_Z 0) Scenario.headers_current eq_refl eq_refl
                   headers_current_carry _)).
  apply passive_keeps.
Defined.

(** ** The order [compareVersions] defines *)

Section VersionOrder.

Import Types Client Scenario Operations Notions.
Local Open Scope Z_scope.

Lemma lt_irreflexive (x : JS.number) : JS.lt x x = false.
Proof.
  destruct x as [| s | k]; simpl; [reflexivity | now destruct s | apply Z.ltb_irrefl].
Qed.

(** Two numbers other than [NaN] are equal or one is below the other. *)
Lemma number_trichotomy (x y : JS.number) :
  x <> JS.NaN -> y <> JS.NaN ->
  (JS.lt x y = true /\ JS.lt y x = false)
  \/ x = y
  \/ (JS.lt y x = true /\ JS.lt x y = false).
Proof.
  intros Hx Hy.
  destruct x as [| s | a]; [congruence | |]; destruct y as [| t | b];
    try congruence; simpl.
  - destruct s, t; simpl; auto.
  - destruct s; simpl; auto.
  - destruct t; simpl; auto.
  - destruct (Z.compare_spec a b) as [-> | Hlt | Hgt].
    + right. left. reflexivity.
    + left. split; [now apply Z.ltb_lt | apply Z.ltb_ge; lia].
    + right. right. split; [now apply Z.ltb_lt | apply Z.ltb_ge; lia].
Qed.

Lemma lt_transitive (x y z : JS.number) :
  JS.lt x y = true -> JS.lt y z = true -> JS.lt x z = true.
Proof.
  destruct x as [| s | a], y as [| t | b], z as [| u | c]; simpl;
    try discriminate; try (destruct s, t, u; simpl; congruence);
    try (destruct s, t; simpl; congruence);
    try (destruct s, u; simpl; congruence);
    try (destruct t, u; simpl; congruence);
    try (destruct s; simpl; congruence);
    try (destruct t; simpl; congruence);
    try (destruct u; simpl; congruence).
  rewrite !Z.ltb_lt. lia.
Qed.

Lemma part_is_number (parts : list JS.number) (i : nat) : part parts i <> JS.NaN.
Proof.
  unfold part. destruct (parts !! i) as [[| s | k] |]; simpl; try discriminate.
  destruct (k =? 0); discriminate.
Qed.

(** The three compared components, as a list. *)
Lemma compareVersions_keys (a b : string) :
  compareVersions a b
  = Spec.first_unequal
      (combine [fst (fst (version_key a)); snd (fst (version_key a)); snd (version_key a)]
               [fst (fst (version_key b)); snd (fst (version_key b)); snd (version_key b)]).
Proof. unfold compareVersions. now rewrite compareVersions_rounds. Qed.

Lemma version_key_numbers (v : string) :
  Forall (fun x => x <> JS.NaN)
    [fst (fst (version_key v)); snd (fst (version_key v)); snd (version_key v)].
Proof. repeat constructor; apply part_is_number. Qed.

Lemma first_unequal_flip (xs : list JS.number) :
  forall ys, length xs = length ys ->
             Forall (fun x => x <> JS.NaN) xs -> Forall (fun x => x <> JS.NaN) ys ->
             Spec.first_unequal (combine ys xs) = - Spec.first_unequal (combine xs ys).
Proof.
  induction xs as [| x xs IH]; intros [| y ys] Hlen Hxs Hys; try discriminate;
    [reflexivity |].
  inversion Hxs as [| ? ? Hx Hxs']; inversion Hys as [| ? ? Hy Hys']; subst.
  injection Hlen as Hlen. cbn [combine Spec.first_unequal].
  destruct (number_trichotomy x y Hx Hy) as [[H1 H2] | [<- | [H1 H2]]].
  - now rewrite H1, H2.
  - rewrite lt_irreflexive. now apply IH.
  - now rewrite H1, H2.
Qed.

Lemma first_unequal_zero (xs : list JS.number) :
  forall ys, length xs = length ys ->
             Forall (fun x => x <> JS.NaN) xs -> Forall (fun x => x <> JS.NaN) ys ->
             (Spec.first_unequal (combine xs ys) = 0 <-> xs = ys).
Proof.
  induction xs as [| x xs IH]; intros [| y ys] Hlen Hxs Hys; try discriminate;
    [tauto |].
  inversion Hxs as [| ? ? Hx Hxs']; inversion Hys as [| ? ? Hy Hys']; subst.
  injection Hlen as Hlen. cbn [combine Spec.first_unequal].
  destruct (number_trichotomy x y Hx Hy) as [[H1 H2] | [<- | [H1 H2]]].
  - rewrite H1. split; [discriminate |]. intros Heq. injection Heq as -> _.
    rewrite lt_irreflexive in H1. discriminate.
  - rewrite lt_irreflexive. rewrite (IH ys Hlen Hxs' Hys').
    split; [now intros -> | now intros Heq; injection Heq].
  - rewrite H2, H1. split; [discriminate |]. intros Heq. injection Heq as -> _.
    rewrite lt_irreflexive in H1. discriminate.
Qed.

Lemma first_unequal_chain (xs : list JS.number) :
  forall ys zs,
    length xs = length ys -> length ys = length zs ->
    Forall (fun x => x <> JS.NaN) xs -> Forall (fun x => x <> JS.NaN) ys ->
    Forall (fun x => x <> JS.NaN) zs ->
    let a := Spec.first_unequal (combine xs ys) in
    let b := Spec.first_unequal (combine ys zs) in
    let c := Spec.first_unequal (combine xs zs) in
    (a = 0 -> c = b) /\ (b = 0 -> c = a)
    /\ (a = -1 -> b = -1 -> c = -1) /\ (a = 1 -> b = 1 -> c = 1).
Proof.
  induction xs as [| x xs IH]; intros [| y ys] [| z zs] Hxy Hyz Hxs Hys Hzs;
    try discriminate; [cbn; repeat split; congruence |].
  inversion Hxs as [| ? ? Hx Hxs']; inversion Hys as [| ? ? Hy Hys'];
    inversion Hzs as [| ? ? Hz Hzs']; subst.
  injection Hxy as Hxy. injection Hyz as Hyz.
  specialize (IH ys zs Hxy Hyz Hxs' Hys' Hzs').
  cbn [combine Spec.first_unequal] in *.
  destruct (number_trichotomy x y Hx Hy) as [[Hxy1 Hxy2] | [Exy | [Hxy1 Hxy2]]];
    destruct (number_trichotomy y z Hy Hz) as [[Hyz1 Hyz2] | [Eyz | [Hyz1 Hyz2]]];
    subst;
    rewrite ?lt_irreflexive, ?Hxy1, ?Hxy2, ?Hyz1, ?Hyz2;
    try (repeat split; intros; congruence);
    try exact IH.
  - rewrite (lt_transitive x y z Hxy1 Hyz1). repeat split; intros; congruence.
  - rewrite (lt_transitive z y x Hyz1 Hxy1).
    destruct (JS.lt x z) eqn:Hxz.
    + pose proof (lt_transitive _ _ _ Hxz (lt_transitive z y x Hyz1 Hxy1)) as Hbad.
      rewrite lt_irreflexive in Hbad. discriminate.
    + repeat split; intros; congruence.
Qed.

(** X11.  [compareVersions] is an order on versions: a version compares equal
    to itself, swapping the arguments negates the result, and the
    comparison is transitive, both for "not above" and for "equal". *)
Theorem compareVersions_order :
  (forall a, compareVersions a a = 0)
  /\ (forall a b, compareVersions b a = - compareVersions a b)
  /\ (forall a b c,
        compareVersions a b <= 0 -> compareVersions b c <= 0 ->
        compareVersions a c <= 0)
  /\ (forall a b c,
        compareVersions a b = 0 -> compareVersions a c = compareVersions b c).
Proof.
  split; [| split; [| split]].
  - intros a. rewrite compareVersions_keys.
    apply first_unequal_zero; [reflexivity | apply version_key_numbers ..| reflexivity].
  - intros a b. rewrite !compareVersions_keys.
    apply first_unequal_flip; [reflexivity | apply version_key_numbers ..].
  - intros a b c. rewrite !compareVersions_keys. intros Hab Hbc.
    pose proof (version_key_numbers a) as Hka.
    pose proof (version_key_numbers b) as Hkb.
    pose proof (version_key_numbers c) as Hkc.
    set (ka := [fst (fst (version_key a)); snd (fst (version_key a)); snd (version_key a)]) in *.
    set (kb := [fst (fst (version_key b)); snd (fst (version_key b)); snd (version_key b)]) in *.
    set (kc := [fst (fst (version_key c)); snd (fst (version_key c)); snd (version_key c)]) in *.
    pose proof (first_unequal_range (combine ka kb)) as Ha.
    pose proof (first_unequal_range (combine kb kc)) as Hb.
    destruct (first_unequal_chain ka kb kc eq_refl eq_refl Hka Hkb Hkc)
      as (H0 & H0' & Hneg & _).
    cbn [In] in Ha, Hb.
    destruct Ha as [Ha | [Ha | [Ha | []]]]; destruct Hb as [Hb | [Hb | [Hb | []]]];
      lia.
  - intros a b c. rewrite !compareVersions_keys. intros Hab.
    apply first_unequal_zero in Hab;
      [| reflexivity | apply version_key_numbers ..].
    now rewrite Hab.
Qed.

Lemma compareVersions_order_witness :
  compareVersions "1.0.0" "1.10" <= 0.
Proof.
  refine (proj1 (proj2 (proj2 compareVersions_order)) "1.0.0"%string "1.2.0"%string
            "1.10"%string _ _); vm_compute; discriminate.
Defined.

Lemma part_take (pieces : list string) (i : nat) :
  (i < 3)%nat ->
  part (map JS.Number (take 3 pieces)) i = part (map JS.Number pieces) i.
Proof.
  intros Hi. unfold part. rewrite !lookup_map.
  now rewrite lookup_take_lt by assumption.
Qed.

(** X12.  Two versions compare equal exactly when their first three
    components are the same numbers, an absent or non-numeric component
    counting as 0; every component after the third is ignored. *)
Theorem compareVersions_three_components :
  (forall a b, compareVersions a b = 0 <-> version_key a = version_key b)
  /\ (forall a a' b,
        take 3 (JS.split a) = take 3 (JS.split a') ->
        compareVersions a b = compareVersions a' b
        /\ compareVersions b a = compareVersions b a').
Proof.
  split.
  - intros a b. rewrite compareVersions_keys.
    rewrite first_unequal_zero by (reflexivity || apply version_key_numbers).
    destruct (version_key a) as [[a0 a1] a2], (version_key b) as [[b0 b1] b2].
    cbn [fst snd]. split; intros H; injection H as -> -> ->; reflexivity.
  - intros a a' b Htake.
    assert (Hkey : version_key a = version_key a').
    { unfold version_key. cbv zeta.
      rewrite <- !(part_take (JS.split a)), <- !(part_take (JS.split a')) by lia.
      now rewrite Htake. }
    rewrite !compareVersions_keys, Hkey. split; reflexivity.
Qed.

Lemma compareVersions_three_components_witness :
  compareVersions "1.2.3.4" "1.2.3" = compareVersions "1.2.3.9" "1.2.3".
Proof.
  refine (proj1 (proj2 compareVersions_three_components "1.2.3.4"%string
                   "1.2.3.9"%string "1.2.3"%string _)).
  reflexivity.
Defined.

Lemma compareVersions_numerals (a b : string) (xs ys : list Z) :
  Spec.numerals (JS.split a) = Some xs ->
  Spec.numerals (JS.split b) = Some ys ->
  Forall (fun x => x < 2 ^ 53) xs ->
  Forall (fun y => y < 2 ^ 53) ys ->
  compareVersions a b = Spec.compare_integers xs ys.
Proof.
  intros Ha Hb Hxs Hys. unfold compareVersions, Spec.compare_integers.
  rewrite compareVersions_rounds.
  rewrite (numerals_Number _ _ Ha Hxs), (numerals_Number _ _ Hb Hys).
  cbn [map Spec.first_unequal Spec.lexicographic].
  now rewrite !part_of_integer, !compare_of_integers.
Qed.

(** X13.  For a latest header made of decimal numerals below 2^53, an update
    is reported as available exactly when that version is above 1.1.0,
    the SDK's own version, in the order of integer triples. *)
Theorem updateAvailable_for_numerals (now : JS.number) (h : gmap string string)
  (l : string) (xs : list Z) :
  h !! "x-sdk-latest"%string = Some l ->
  Spec.numerals (JS.split l) = Some xs ->
  Forall (fun x => x < 2 ^ 53) xs ->
  let x0 := nth 0 xs 0 in
  let x1 := nth 1 xs 0 in
  let x2 := nth 2 xs 0 in
  updateAvailable (newStatus_of now h) = true
  <-> 1 < x0 \/ (x0 = 1 /\ (1 < x1 \/ (x1 = 1 /\ 0 < x2))).
Proof.
  intros Hl Hxs Hsmall x0 x1 x2.
  assert (Hne : JS.truthy_string l = true).
  { apply truthy_string_true. intros ->. discriminate Hxs. }
  unfold newStatus_of. cbn [updateAvailable]. rewrite Hl, Hne, Z.ltb_lt.
  assert (Hown : Spec.numerals (JS.split SDK_VERSION) = Some [1; 1; 0]) by reflexivity.
  assert (Hcmp : compareVersions SDK_VERSION l = Spec.compare_integers [1; 1; 0] xs)
    by (apply compareVersions_numerals; [exact Hown | exact Hxs | repeat constructor
                                          | exact Hsmall]).
  rewrite Hcmp. unfold Spec.compare_integers.
  cbn [map Spec.lexicographic nth]. fold x0 x1 x2.
  destruct (Z.compare_spec 1 x0) as [H0 | H0 | H0]; cbn [Spec.sign];
    [| lia | lia].
  destruct (Z.compare_spec 1 x1) as [H1 | H1 | H1]; cbn [Spec.sign];
    [| lia | lia].
  destruct (Z.compare_spec 0 x2) as [H2 | H2 | H2]; cbn [Spec.sign]; lia.
Qed.

Lemma updateAvailable_for_numerals_witness :
  updateAvailable (newStatus_of (JS.of_Z 0) {[ "x-sdk-latest"%string := "1.2.0"%string ]})
  = true.
Proof.
  refine (proj2 (updateAvailable_for_numerals (JS.of_Z 0)
                   {[ "x-sdk-latest"%string := "1.2.0"%string ]} "1.2.0"%string
                   [1; 2; 0] _ eq_refl _) _).
  - vm_compute. reflexivity.
  - repeat constructor.
  - cbn. lia.
Defined.

End VersionOrder.

(** ** More about errors *)

Section ErrorShapes.

Import Types Client Scenario Operations Notions.
Local Open Scope string_scope.

Lemma or_else_is (v : option string) (d s : string) :
  s <> "" -> d <> s -> (JS.or_else v d = s <-> v = Some s).
Proof.
  intros Hs Hd. destruct v as [x |]; simpl.
  - destruct (JS.truthy_string x) eqn:Hx.
    + split; [now intros -> | now intros H; injection H].
    + apply truthy_string_false in Hx. subst x.
      split; [congruence | intros H; injection H; congruence].
  - split; [congruence | discriminate].
Qed.



(** X15.  How a failure with a response is classified.  401 and 403 are
    authentication errors and not retryable; 429 is a rate-limit error,
    retryable and not an authentication error; 503 and 504 are
    retryable.  Any other status is retryable exactly when the envelope's
    machine code is RATE_LIMITED. *)
Theorem handleError_classification (err : AxiosError) (r : AxiosResponse unknown) :
  response err = Some r ->
  let e := handleError err in
  let status := response_status r in
  (status = 401%Z \/ status = 403%Z ->
   isAuthError e = true /\ isRetryable e = false /\ isRateLimitError e = false)
  /\ (status = 429%Z ->
      isRateLimitError e = true /\ isRetryable e = true /\ isAuthError e = false)
  /\ (status = 503%Z \/ status = 504%Z -> isRetryable e = true)
  /\ (status <> 401%Z -> status <> 403%Z -> status <> 429%Z ->
      status <> 503%Z -> status <> 504%Z ->
      (isRetryable e = true <-> errorCode (response_data r) = Some "RATE_LIMITED")).
Proof.
  intros Hr e status. subst e. unfold handleError. rewrite Hr. fold status.
  unfold isRetryable, isRateLimitError, isAuthError. cbn [code statusCode].
  split; [| split; [| split]].
  - intros [-> | ->]; repeat split.
  - intros ->. repeat split.
  - intros [-> | ->].
    + cbn [Z.eqb Pos.eqb]. now rewrite orb_true_r.
    + cbn [Z.eqb Pos.eqb]. now rewrite !orb_true_r.
  - intros H1 H3 H9 H503 H504.
    apply Z.eqb_neq in H1, H3, H9, H503, H504.
    rewrite H1, H3, H9, H503, H504. rewrite !orb_false_r, String.eqb_eq.
    apply or_else_is; discriminate.
Qed.

Lemma handleError_classification_witness :
  isRetryable (handleError rate_limited_response) = true.
Proof.
  exact (proj1 (proj2 (proj1 (proj2 (handleError_classification rate_limited_response
                                        _ eq_refl)) eq_refl))).
Defined.

Lemma parseInt10_numeral (v : string) (n : Z) :
  Spec.numeral v = Some n -> (n < 2 ^ 53)%Z -> JS.parseInt10 v = Spec.number_of n.
Proof.
  intros H Hlt. destruct v as [| c rest]; [discriminate |].
  unfold Spec.numeral in H.
  assert (Hn : (0 <= n)%Z) by (apply (numeral_from_bound _ _ _ H); lia).
  assert (Hd : Spec.decimal_digit c = true).
  { simpl in H. destruct (Spec.decimal_digit c); [reflexivity | discriminate]. }
  unfold JS.parseInt10.
  assert (Hstart : JS.trim_start (String c rest) = String c rest).
  { simpl. now rewrite (digit_not_white_space c Hd). }
  rewrite Hstart. unfold JS.take_sign.
  rewrite (digit_is_not c "+" Hd eq_refl), (digit_is_not c "-" Hd eq_refl).
  rewrite (take_digits_numeral _ _ 0%Z _ H). cbv beta iota zeta.
  rewrite (proj2 (Z.ltb_lt 0 _)) by (simpl String.length; lia).
  now rewrite of_ratio_exact by lia.
Qed.

Lemma parseInt10_not_a_number (c : ascii) (rest : string) :
  JS.is_white_space c = false -> JS.digit_value 10 c = None ->
  c <> "+"%char -> c <> "-"%char ->
  JS.parseInt10 (String c rest) = JS.NaN.
Proof.
  intros Hw Hd Hplus Hminus. unfold JS.parseInt10.
  cbn [JS.trim_start]. rewrite Hw. unfold JS.take_sign.
  rewrite (proj2 (Ascii.eqb_neq _ _) Hplus), (proj2 (Ascii.eqb_neq _ _) Hminus).
  cbn [JS.take_digits]. rewrite Hd. reflexivity.
Qed.

(** X16.  The retry hint of a failure with a response: absent exactly when
    the retry-after header is missing or empty; the number of seconds
    when the header is a decimal numeral; and [NaN], not absent, when
    the header starts with anything but white space, a sign or a digit,
    as an HTTP date does. *)
Theorem retry_after_hint (err : AxiosError) (r : AxiosResponse unknown) :
  response err = Some r ->
  (retryAfter (handleError err) = None
   <-> JS.truthy (headers r !! "retry-after") = false)
  /\ (forall v n,
        headers r !! "retry-after" = Some v ->
        Spec.numeral v = Some n -> (n < 2 ^ 53)%Z ->
        retryAfter (handleError err) = Some (Spec.number_of n))
  /\ (forall c rest,
        headers r !! "retry-after" = Some (String c rest) ->
        JS.is_white_space c = false -> JS.digit_value 10 c = None ->
        c <> "+"%char -> c <> "-"%char ->
        retryAfter (handleError err) = Some JS.NaN).
Proof.
  intros Hr. unfold handleError. rewrite Hr. cbn [retryAfter].
  split; [| split].
  - destruct (headers r !! "retry-after") as [v |]; simpl; [| tauto].
    destruct (JS.truthy_string v); split; congruence.
  - intros v n Hv Hn Hlt. rewrite Hv.
    assert (Hne : JS.truthy_string v = true).
    { apply truthy_string_true. intros ->. discriminate Hn. }
    now rewrite Hne, (parseInt10_numeral v n Hn Hlt).
  - intros c rest Hv Hw Hd Hplus Hminus. rewrite Hv.
    cbn [JS.truthy_string String.eqb negb].
    now rewrite parseInt10_not_a_number.
Qed.

Lemma retry_after_hint_witness :
  retryAfter (handleError rate_limited_response) = Some (Spec.number_of 30).
Proof.
  refine (proj1 (proj2 (retry_after_hint rate_limited_response _ eq_refl))
            "30" 30%Z _ eq_refl _).
  - vm_compute. reflexivity.
  - reflexivity.
Defined.

End ErrorShapes.

(** ** More about the active-adder filter *)

Section ActiveFilter.

Import Types Client Scenario Operations Notions.
Local Open Scope string_scope.

Variable Date_parse : string -> JS.number.

Lemma filter_from_In (clock : nat -> JS.number) (options : option ActiveOptions)
  (l : list CostAdder) (a : CostAdder) :
  forall i, In a (filter_from Date_parse clock i options l) ->
            exists j, l !! j = Some a
                      /\ is_kept Date_parse options (clock (i + j)%nat) a = true.
Proof.
  induction l as [| x l IH]; intros i Hin; [destruct Hin |].
  cbn [filter_from] in Hin.
  destruct (is_kept Date_parse options (clock i) x) eqn:Hx.
  - destruct Hin as [<- | Hin].
    + exists 0%nat. split; [reflexivity |]. now rewrite Nat.add_0_r.
    + destruct (IH (S i) Hin) as (j & Hj & Hk). exists (S j).
      split; [exact Hj |]. now replace (i + S j)%nat with (S i + j)%nat by lia.
  - destruct (IH (S i) Hin) as (j & Hj & Hk). exists (S j).
    split; [exact Hj |]. now replace (i + S j)%nat with (S i + j)%nat by lia.
Qed.

Lemma filter_from_sublist (clock : nat -> JS.number) (options : option ActiveOptions)
  (l : list CostAdder) :
  forall i, filter_from Date_parse clock i options l `sublist_of` l.
Proof.
  induction l as [| x l IH]; intros i; cbn [filter_from]; [constructor |].
  destruct (is_kept Date_parse options (clock i) x);
    [apply sublist_skip | apply sublist_cons]; apply IH.
Qed.

Lemma is_kept_conditions (options : option ActiveOptions) (now : JS.number)
  (a : CostAdder) :
  is_kept Date_parse options now a = true ->
  active a = true
  /\ (forall o, options = Some o -> quoteType o = Some retail ->
                applies_to_retail a = true)
  /\ (forall o, options = Some o -> quoteType o = Some lom ->
                applies_to_lom a = true)
  /\ (forall o wanted fips,
        options = Some o -> countyFips o = Some wanted -> wanted <> "" ->
        county_fips a = Some fips -> fips <> "" -> fips = wanted).
Proof.
  unfold is_kept. intros H.
  destruct (negb (active a)) eqn:Hactive; [discriminate |].
  destruct (match options with
            | Some {| quoteType := Some retail |} => negb (applies_to_retail a)
            | _ => false
            end) eqn:Hretail; [discriminate |].
  destruct (match options with
            | Some {| quoteType := Some lom |} => negb (applies_to_lom a)
            | _ => false
            end) eqn:Hlom; [discriminate |].
  destruct (match options with
            | Some {| countyFips := Some wanted |} =>
                JS.truthy_string wanted
                && match county_fips a with
                   | Some fips => JS.truthy_string fips && negb (fips =? wanted)
                   | None => false
                   end
            | _ => false
            end) eqn:Hcounty; [discriminate |].
  clear H. split; [now destruct (active a) |]. split; [| split].
  - intros [q w] -> Hq. cbn in Hq. subst q. cbn in Hretail.
    now destruct (applies_to_retail a).
  - intros [q w] -> Hq. cbn in Hq. subst q. cbn in Hlom.
    now destruct (applies_to_lom a).
  - intros [q w] wanted fips -> Hw Hwanted Hfips Hne. cbn in Hw. subst w.
    cbn in Hcounty. rewrite Hfips in Hcounty.
    apply truthy_string_true in Hwanted, Hne. rewrite Hwanted, Hne in Hcounty.
    cbn in Hcounty. now destruct (String.eqb_spec fips wanted).
Qed.

(** X17.  What [getActiveCostAdders] returns is a selection of the fetched
    adders in their order, and every adder in it is active, applies to
    the requested quote type when one is requested, and, when a county
    is requested, is either not tied to a county or tied to that one. *)
Theorem active_adders_selection (clock : nat -> JS.number)
  (options : option ActiveOptions) (fetched : list CostAdder) :
  filter_from Date_parse clock 0 options fetched `sublist_of` fetched
  /\ (forall a, In a (filter_from Date_parse clock 0 options fetched) ->
        In a fetched
        /\ active a = true
        /\ (forall o, options = Some o -> quoteType o = Some retail ->
                      applies_to_retail a = true)
        /\ (forall o, options = Some o -> quoteType o = Some lom ->
                      applies_to_lom a = true)
        /\ (forall o wanted fips,
              options = Some o -> countyFips o = Some wanted -> wanted <> "" ->
              county_fips a = Some fips -> fips <> "" -> fips = wanted)).
Proof.
  split; [apply filter_from_sublist |].
  intros a Hin. destruct (filter_from_In _ _ _ _ _ Hin) as (j & Hj & Hkept).
  split; [apply list_elem_of_In; now apply (list_elem_of_lookup_2 _ j) |].
  now apply (is_kept_conditions options (clock (0 + j)%nat)).
Qed.

Lemma is_kept_expired (options : option ActiveOptions) (now : JS.number)
  (a : CostAdder) (d : DateInput) :
  expiration_date a = Some d -> truthy_date (Some d) = true ->
  JS.lt (new_Date Date_parse d) now = true ->
  is_kept Date_parse options now a = false.
Proof.
  intros Hd Ht Hlt. unfold is_kept. rewrite Hd, Ht, Hlt. cbn [andb].
  repeat match goal with
         | |- (if ?b then false else _) = false => destruct b; [reflexivity |]
         end.
  reflexivity.
Qed.

Lemma is_kept_not_yet (options : option ActiveOptions) (now : JS.number)
  (a : CostAdder) (d : DateInput) :
  effective_date a = Some d -> truthy_date (Some d) = true ->
  JS.gt (new_Date Date_parse d) now = true ->
  is_kept Date_parse options now a = false.
Proof.
  intros Hd Ht Hgt. unfold is_kept. rewrite Hd, Ht, Hgt. cbn [andb].
  repeat match goal with
         | |- (if ?b then false else _) = false => destruct b; [reflexivity |]
         end.
  reflexivity.
Qed.

Lemma gt_NaN (now : JS.number) : JS.gt JS.NaN now = false.
Proof. unfold JS.gt. now destruct now. Qed.

(** X18.  The date window.  An adder whose expiration date lies before every
    clock reading is never returned, and neither is one whose effective
    date lies after every reading, whatever its other fields and the
    options.  A date that does not parse (its time value is [NaN]) opens
    or closes nothing: the adder is treated as if it had no such date. *)
Theorem date_window (clock : nat -> JS.number) (options : option ActiveOptions)
  (fetched : list CostAdder) (a : CostAdder) :
  (forall d, expiration_date a = Some d -> truthy_date (Some d) = true ->
             (forall j, JS.lt (new_Date Date_parse d) (clock j) = true) ->
             ~ In a (filter_from Date_parse clock 0 options fetched))
  /\ (forall d, effective_date a = Some d -> truthy_date (Some d) = true ->
                (forall j, JS.gt (new_Date Date_parse d) (clock j) = true) ->
                ~ In a (filter_from Date_parse clock 0 options fetched))
  /\ ((forall d, effective_date a = Some d -> new_Date Date_parse d = JS.NaN) ->
      (forall d, expiration_date a = Some d -> new_Date Date_parse d = JS.NaN) ->
      forall now, is_kept Date_parse options now a
                  = is_kept Date_parse options now (without_dates a)).
Proof.
  split; [| split].
  - intros d Hd Ht Hpast Hin.
    destruct (filter_from_In _ _ _ _ _ Hin) as (j & _ & Hkept).
    rewrite (is_kept_expired options _ a d Hd Ht (Hpast _)) in Hkept. discriminate.
  - intros d Hd Ht Hfuture Hin.
    destruct (filter_from_In _ _ _ _ _ Hin) as (j & _ & Hkept).
    rewrite (is_kept_not_yet options _ a d Hd Ht (Hfuture _)) in Hkept. discriminate.
  - intros Heff Hexp now. unfold is_kept.
    cbn [without_dates active applies_to_retail applies_to_lom county_fips
         effective_date expiration_date truthy_date andb].
    destruct (effective_date a) as [d1 |]; destruct (expiration_date a) as [d2 |];
      try rewrite (Heff d1 eq_refl); try rewrite (Hexp d2 eq_refl);
      rewrite ?gt_NaN; cbn [JS.lt truthy_date andb]; rewrite ?andb_false_r;
      cbv iota; reflexivity.
Qed.

End ActiveFilter.

Lemma active_adders_selection_witness :
  Types.active Scenario.expiring_adder = true.
Proof.
  refine (proj1 (proj2 (proj2 (active_adders_selection Scenario.no_date
                                 (fun _ => JS.of_Z 999) None
                                 [Scenario.expiring_adder])
                          Scenario.expiring_adder _))).
  assert (Hkept : Client.is_kept Scenario.no_date None (JS.of_Z 999)
                    Scenario.expiring_adder = true) by (vm_compute; reflexivity).
  cbn [Client.filter_from]. rewrite Hkept. now left.
Defined.

Lemma date_window_witness :
  ~ In Scenario.expiring_adder
      (Client.filter_from Scenario.no_date (fun _ => JS.of_Z 1001) 0 None
         [Scenario.expiring_adder]).
Proof.
  refine (proj1 (date_window Scenario.no_date (fun _ => JS.of_Z 1001) None
                   [Scenario.expiring_adder] Scenario.expiring_adder)
            (Types.DateObject (JS.of_Z 1000)) eq_refl eq_refl _).
  intros j. vm_compute. reflexivity.
Defined.

(** ** More about the cost-adder sum *)

Section Pricing.

Import Types Client Scenario Operations Notions.
Local Open Scope Z_scope.

(** X19.  The breakdown has one entry per adder, in the order of the input,
    named by the display name when there is a non-empty one and by the
    adder name otherwise; an empty list costs 0; and pricing two lists
    one after the other is pricing the second from the running result of
    the first. *)
Theorem breakdown_structure (basePrice roofSquares : JS.number) :
  calculateCostAdders [] basePrice roofSquares
  = {| totalAdderCost := JS.Finite 0; breakdown := [] |}
  /\ (forall l,
        length (breakdown (calculateCostAdders l basePrice roofSquares)) = length l
        /\ forall i a,
             l !! i = Some a ->
             exists e,
               breakdown (calculateCostAdders l basePrice roofSquares) !! i = Some e
               /\ name e = JS.or_else (display_name a) (adder_name a)
               /\ type e = adder_type a
               /\ cost e = cost_of basePrice roofSquares a)
  /\ (forall l1 l2,
        calculateCostAdders (l1 ++ l2) basePrice roofSquares
        = fold_left (calculateCostAdders_step basePrice roofSquares) l2
            (calculateCostAdders l1 basePrice roofSquares)).
Proof.
  split; [reflexivity | split].
  - intros l.
    destruct (calculateCostAdders_breakdown l basePrice roofSquares) as [Hb _].
    rewrite Hb. split; [apply length_map |].
    intros i a Ha. exists (entry_of basePrice roofSquares a).
    rewrite lookup_map, Ha. repeat split.
  - intros l1 l2. unfold calculateCostAdders. apply fold_left_app.
Qed.

Lemma breakdown_structure_witness :
  exists e,
    breakdown (calculateCostAdders [adder "tear-off" fixed 500 None]
                 (JS.of_Z 10000) (JS.of_Z 5)) !! 0%nat = Some e
    /\ name e = "tear-off"%string.
Proof.
  destruct (proj2 (proj1 (proj2 (breakdown_structure (JS.of_Z 10000) (JS.of_Z 5)))
                     [adder "tear-off" fixed 500 None])
              0%nat (adder "tear-off" fixed 500 None) eq_refl)
    as (e & He & Hname & _).
  exists e. split; [exact He | exact Hname].
Defined.

Lemma add_NaN_r (x : JS.number) : JS.add x JS.NaN = JS.NaN.
Proof. now destruct x. Qed.

Lemma sum_from_NaN (costs : list JS.number) : fold_left JS.add costs JS.NaN = JS.NaN.
Proof. induction costs as [| x costs IH]; simpl; auto. Qed.

Lemma sum_with_NaN (costs : list JS.number) :
  forall acc, In JS.NaN costs -> fold_left JS.add costs acc = JS.NaN.
Proof.
  induction costs as [| x costs IH]; intros acc Hin; [destruct Hin |].
  simpl. destruct Hin as [-> | Hin]; [| now apply IH].
  rewrite add_NaN_r. apply sum_from_NaN.
Qed.

(** X20.  One value that is not a number spoils the total: if the value of
    any adder is [NaN], or the base price is [NaN] and there is a
    percentage adder, or the quantity is [NaN] and there is a per-square
    adder, then the total is [NaN]. *)
Theorem total_not_a_number (l : list CostAdder) (basePrice roofSquares : JS.number)
  (a : CostAdder) :
  In a l ->
  cost_value a = JS.NaN
  \/ (adder_type a = percentage /\ basePrice = JS.NaN)
  \/ (adder_type a = per_square /\ roofSquares = JS.NaN) ->
  totalAdderCost (calculateCostAdders l basePrice roofSquares) = JS.NaN.
Proof.
  intros Hin Hbad.
  destruct (calculateCostAdders_breakdown l basePrice roofSquares) as [_ Ht].
  rewrite Ht. apply sum_with_NaN.
  assert (Hcost : cost_of basePrice roofSquares a = JS.NaN).
  { unfold cost_of. destruct Hbad as [Hv | [[Hk Hb] | [Hk Hs]]].
    - rewrite Hv. destruct (adder_type a); cbn [JS.div JS.mul];
        [now destruct basePrice | reflexivity | reflexivity].
    - rewrite Hk, Hb. reflexivity.
    - rewrite Hk, Hs. now destruct (cost_value a). }
  rewrite <- Hcost. now apply in_map.
Qed.

Lemma round_units_scaled (n : Z) :
  0 <= n < 2 ^ 53 -> JS.round_units (n * JS.unit * JS.unit) JS.unit = n * JS.unit.
Proof.
  intros [H0 Hlt]. pose proof unit_pos as Hu.
  unfold JS.round_units. cbv zeta. rewrite Z.div_mul by lia.
  destruct (Z.eq_dec n 0) as [-> | Hn].
  - rewrite !Z.mul_0_l. reflexivity.
  - set (L := Z.log2 n).
    assert (HL : 0 <= L <= 52).
    { split; [apply Z.log2_nonneg |].
      assert (L < 53) by (apply Z.log2_lt_pow2; lia). lia. }
    assert (Hlog : Z.log2 (n * JS.unit) = L + 1074).
    { unfold JS.unit. rewrite Z.log2_mul_pow2 by lia. fold L. lia. }
    rewrite Hlog. replace (Z.max 0 (L + 1074 + 1 - 53)) with (L + 1022) by lia.
    assert (Hpow : 0 < 2 ^ (L + 1022)) by (apply Z.pow_pos_nonneg; lia).
    assert (Hsplit : n * JS.unit = n * 2 ^ (52 - L) * 2 ^ (L + 1022)).
    { unfold JS.unit. rewrite <- Z.mul_assoc, <- Z.pow_add_r by lia.
      do 2 f_equal. lia. }
    assert (Hwhole : n * JS.unit * JS.unit
                     = n * 2 ^ (52 - L) * (JS.unit * 2 ^ (L + 1022))).
    { rewrite Hsplit at 1. ring. }
    rewrite Hwhole, Z.mod_mul, Z.div_mul by lia.
    rewrite Z.mul_0_r.
    rewrite (proj2 (Z.compare_lt_iff 0 _)) by (apply Z.mul_pos_pos; lia).
    symmetry. exact Hsplit.
Qed.

(** Whole numbers are added and multiplied exactly as long as the
    result stays below 2^53. *)
Lemma add_whole (a b : Z) :
  0 <= a -> 0 <= b -> a + b < 2 ^ 53 ->
  JS.add (Spec.number_of a) (Spec.number_of b) = Spec.number_of (a + b).
Proof.
  intros Ha Hb Hsum. unfold Spec.number_of, JS.add. pose proof unit_pos as Hu.
  rewrite <- Z.mul_add_distr_r.
  rewrite (proj2 (Z.ltb_ge _ 0)) by (apply Z.mul_nonneg_nonneg; lia).
  rewrite Z.abs_eq by (apply Z.mul_nonneg_nonneg; lia).
  apply of_ratio_exact. lia.
Qed.

Lemma mul_whole (a b : Z) :
  0 <= a -> 0 <= b -> a * b < 2 ^ 53 ->
  JS.mul (Spec.number_of a) (Spec.number_of b) = Spec.number_of (a * b).
Proof.
  intros Ha Hb Hprod. unfold Spec.number_of, JS.mul. pose proof unit_pos as Hu.
  assert (Hshape : a * JS.unit * (b * JS.unit) = a * b * JS.unit * JS.unit) by ring.
  rewrite Hshape.
  assert (Hnn : 0 <= a * b * JS.unit * JS.unit)
    by (repeat apply Z.mul_nonneg_nonneg; lia).
  rewrite (proj2 (Z.ltb_ge _ 0)) by exact Hnn.
  rewrite Z.abs_eq by exact Hnn.
  unfold JS.of_ratio. cbv zeta.
  rewrite round_units_scaled by (split; [apply Z.mul_nonneg_nonneg |]; lia).
  rewrite below_overflow by (split; [apply Z.mul_nonneg_nonneg |]; lia).
  reflexivity.
Qed.

Lemma whole_costs_sum (basePrice : JS.number) (squares : Z) (l : list CostAdder) :
  forall (values : list Z) (acc : Z),
    0 <= squares -> 0 <= acc ->
    map cost_value l = map Spec.number_of values ->
    Forall (fun v => 0 <= v) values ->
    Forall (fun a => adder_type a <> percentage) l ->
    acc + fold_right Z.add 0
            (zip_with (whole_cost squares) (map adder_type l) values) < 2 ^ 53 ->
    fold_left JS.add (map (cost_of basePrice (Spec.number_of squares)) l)
      (Spec.number_of acc)
    = Spec.number_of
        (acc + fold_right Z.add 0
                 (zip_with (whole_cost squares) (map adder_type l) values))
    /\ map (cost_of basePrice (Spec.number_of squares)) l
       = map Spec.number_of
           (zip_with (whole_cost squares) (map adder_type l) values).
Proof.
  induction l as [| a l IH]; intros [| v values] acc Hs Hacc Hvalues Hpos Hkinds Hsum;
    try discriminate.
  - cbn. now rewrite Z.add_0_r.
  - cbn [map zip_with fold_right fold_left] in *.
    injection Hvalues as Hv Hvalues.
    inversion Hpos as [| ? ? Hv0 Hpos']; inversion Hkinds as [| ? ? Hk Hkinds']; subst.
    set (rest := fold_right Z.add 0
                   (zip_with (whole_cost squares) (map adder_type l) values)) in *.
    assert (Hrest : 0 <= rest).
    { subst rest. clear -Hpos' Hs. revert values Hpos'.
      induction l as [| b l IHl]; intros [| w values] Hpos'; cbn; try lia.
      inversion Hpos' as [| ? ? Hw Hpos'']; subst.
      specialize (IHl values Hpos'').
      assert (0 <= whole_cost squares (adder_type b) w)
        by (unfold whole_cost; destruct (adder_type b); try lia;
            apply Z.mul_nonneg_nonneg; lia).
      lia. }
    assert (Hwhole : 0 <= whole_cost squares (adder_type a) v)
      by (unfold whole_cost; destruct (adder_type a); try lia;
          apply Z.mul_nonneg_nonneg; lia).
    assert (Hcost : cost_of basePrice (Spec.number_of squares) a
                    = Spec.number_of (whole_cost squares (adder_type a) v)).
    { unfold cost_of, whole_cost. rewrite Hv.
      destruct (adder_type a); [congruence | reflexivity |].
      apply mul_whole; try lia. unfold whole_cost in Hwhole, Hsum.
      destruct (adder_type a); try congruence; lia. } 
    rewrite Hcost, add_whole by lia.
    destruct (IH values (acc + whole_cost squares (adder_type a) v) Hs
                ltac:(lia) Hvalues Hpos' Hkinds' ltac:(fold rest; lia)) as [IHt IHm].
    fold rest in IHt. rewrite IHt, IHm. split; [f_equal; lia | reflexivity].
Qed.

(** X21.  With whole-number values and a whole number of squares, fixed and
    per-square adders are priced exactly: every cost and the total are
    the integers one expects, as long as the total stays below 2^53. *)
Theorem whole_number_total (basePrice : JS.number) (squares : Z)
  (l : list CostAdder) (values : list Z) :
  0 <= squares ->
  map cost_value l = map Spec.number_of values ->
  Forall (fun v => 0 <= v) values ->
  Forall (fun a => adder_type a <> percentage) l ->
  let costs := zip_with (whole_cost squares) (map adder_type l) values in
  fold_right Z.add 0 costs < 2 ^ 53 ->
  let r := calculateCostAdders l basePrice (Spec.number_of squares) in
  totalAdderCost r = Spec.number_of (fold_right Z.add 0 costs)
  /\ map cost (breakdown r) = map Spec.number_of costs.
Proof.
  intros Hs Hvalues Hpos Hkinds costs Hsum r. subst r costs.
  destruct (calculateCostAdders_breakdown l basePrice (Spec.number_of squares))
    as [Hb Ht].
  destruct (whole_costs_sum basePrice squares l values 0 Hs ltac:(lia) Hvalues Hpos
              Hkinds ltac:(lia)) as [Hsum' Hmap].
  rewrite Ht, Hb. change (JS.Finite 0) with (Spec.number_of 0). rewrite Hsum'.
  split; [reflexivity |].
  rewrite map_map. exact Hmap.
Qed.

End Pricing.

Lemma total_not_a_number_witness :
  Client.totalAdderCost
    (Client.calculateCostAdders [Scenario.adder "tax" Types.percentage 5 None]
       JS.NaN (JS.of_Z 30))
  = JS.NaN.
Proof.
  apply (total_not_a_number _ _ _ (Scenario.adder "tax" Types.percentage 5 None)).
  - left. reflexivity.
  - right. left. split; reflexivity.
Defined.

Lemma whole_number_total_witness :
  Client.totalAdderCost
    (Client.calculateCostAdders
       [Scenario.adder "tear-off" Types.fixed 500 None;
        Scenario.adder "steep" Types.per_square 25 None]
       (JS.of_Z 10000) (Spec.number_of 30))
  = Spec.number_of 1250.
Proof.
  refine (proj1 (whole_number_total (JS.of_Z 10000) 30
                   [Scenario.adder "tear-off" Types.fixed 500 None;
                    Scenario.adder "steep" Types.per_square 25 None]
                   [500; 25] _ _ _ _ _)).
  - lia.
  - vm_compute. reflexivity.
  - repeat constructor; lia.
  - repeat constructor; intros H; vm_compute in H; discriminate H.
  - vm_compute. reflexivity.
Defined.

(** ** The writing and premium operations *)

Section OtherOperations.

Import Types Client Scenario Operations Notions.
Local Open Scope string_scope.

Variable behaviour : VersionChangeCallback -> SDKVersionStatus -> list Action.








End OtherOperations.




(** ** Changing the credentials *)

Section Credentials.

Import Types Client Scenario Operations Notions.
Local Open Scope string_scope.

Lemma set_config_beside (cfg : MarketServiceConfig) (c : Instance) :
  beside_config (set_config cfg c) = beside_config c.
Proof. reflexivity. Qed.

(** X25.  The setters write the header they are named after and nothing
    else: [setJwtToken] installs [Bearer] and the token for every
    token, the empty one too; [clearJwtToken] removes that header;
    [setApiKey] installs the key; every other header default stays as
    it was; and the configuration holds the new value. *)
Theorem setters_write_one_header (s : Session) (token key other : string) :
  common (setJwtToken token s) !! "Authorization" = Some ("Bearer " ++ token)
  /\ jwtToken (config (instance (setJwtToken token s))) = Some token
  /\ common (clearJwtToken s) !! "Authorization" = None
  /\ jwtToken (config (instance (clearJwtToken s))) = None
  /\ common (setApiKey key s) !! "X-API-Key" = Some key
  /\ apiKey (config (instance (setApiKey key s))) = key
  /\ (other <> "Authorization" ->
      common (setJwtToken token s) !! other = common s !! other
      /\ common (clearJwtToken s) !! other = common s !! other)
  /\ (other <> "X-API-Key" ->
      common (setApiKey key s) !! other = common s !! other)
  /\ apiKey (config (instance (setJwtToken token s))) = apiKey (config (instance s))
  /\ apiKey (config (instance (clearJwtToken s))) = apiKey (config (instance s))
  /\ jwtToken (config (instance (setApiKey key s))) = jwtToken (config (instance s)).
Proof.
  unfold setJwtToken, clearJwtToken, setApiKey. cbn [common instance config set_config
    with_jwtToken with_apiKey jwtToken apiKey].
  repeat match goal with |- _ /\ _ => split end; try reflexivity.
  - apply lookup_insert_eq.
  - apply lookup_delete_eq.
  - apply lookup_insert_eq.
  - intros Hother. split; [apply lookup_insert_ne | apply lookup_delete_ne]; congruence.
  - intros Hother. apply lookup_insert_ne. congruence.
Qed.

Lemma setters_write_one_header_witness :
  common (setJwtToken "" plain_session) !! "Authorization" = Some "Bearer "
  /\ common (setJwtToken "t" plain_session) !! "X-API-Key" = None.
Proof.
  pose proof (setters_write_one_header plain_session "" "k" "X-API-Key") as H1.
  pose proof (setters_write_one_header plain_session "t" "k" "X-API-Key") as H2.
  destruct H1 as (H1 & _).
  destruct H2 as (_ & _ & _ & _ & _ & _ & H2 & _).
  split; [exact H1 |].
  rewrite (proj1 (H2 ltac:(discriminate))). reflexivity.
Defined.

(** X26.  Setting a credential twice leaves what the last call set; clearing
    the token after setting it is clearing it; clearing twice is
    clearing once; and setting the key and setting or clearing the token
    do not disturb each other, in either order. *)
Theorem setters_compose (s : Session) (t1 t2 k1 k2 : string) :
  setJwtToken t2 (setJwtToken t1 s) = setJwtToken t2 s
  /\ setApiKey k2 (setApiKey k1 s) = setApiKey k2 s
  /\ clearJwtToken (setJwtToken t1 s) = clearJwtToken s
  /\ clearJwtToken (clearJwtToken s) = clearJwtToken s
  /\ setJwtToken t1 (clearJwtToken s) = setJwtToken t1 s
  /\ setApiKey k1 (setJwtToken t1 s) = setJwtToken t1 (setApiKey k1 s)
  /\ setApiKey k1 (clearJwtToken s) = clearJwtToken (setApiKey k1 s).
Proof.
  unfold setJwtToken, clearJwtToken, setApiKey. cbn [common instance config set_config
    with_jwtToken with_apiKey jwtToken apiKey environment baseURL timeout clientAppName
    onVersionChange versionCallbacks versionStatus client_environment client_baseURL
    transport_timeout transport_headers invoked console].
  repeat match goal with |- _ /\ _ => split end; f_equal.
  - apply insert_insert_eq.
  - apply insert_insert_eq.
  - apply delete_insert_eq.
  - apply delete_id, lookup_delete_eq.
  - apply map_eq. intros i. destruct (decide (i = "Authorization")) as [-> | Hi].
    + now rewrite !lookup_insert_eq.
    + now rewrite !lookup_insert_ne, lookup_delete_ne by congruence.
  - apply insert_insert_ne. discriminate.
  - rewrite delete_insert. now case_decide.
Qed.

(** X27.  Setting a token on a session that has none and clearing it again
    gives the session back. *)
Theorem token_round_trip (s : Session) (token : string) :
  jwtToken (config (instance s)) = None ->
  common s !! "Authorization" = None ->
  clearJwtToken (setJwtToken token s) = s.
Proof.
  intros Hcfg Hcommon. destruct s as [[cfg cbs st env url tm th inv con] headers].
  destruct cfg as [e b k j t a o]. cbn in Hcfg, Hcommon. subst j.
  unfold clearJwtToken, setJwtToken. cbn [common instance config set_config
    with_jwtToken jwtToken apiKey environment baseURL timeout clientAppName
    onVersionChange versionCallbacks versionStatus client_environment client_baseURL
    transport_timeout transport_headers invoked console].
  f_equal. now apply delete_insert_id.
Qed.

Lemma token_round_trip_witness :
  clearJwtToken (setJwtToken "token-1" plain_session) = plain_session.
Proof. apply (token_round_trip plain_session "token-1"); reflexivity. Defined.

(** X28.  The setters change nothing but the configuration and the header
    defaults: subscribers, stored status, resolved environment and base
    URL, timeout, creation headers and console stay as they are.  In
    particular [setApiKey] neither detects the environment from the new
    key nor checks the key against the environment, both of which the
    constructor does with the same configuration. *)
Theorem setters_keep_client (s : Session) (token key : string) :
  beside_config (instance (setJwtToken token s)) = beside_config (instance s)
  /\ beside_config (instance (clearJwtToken s)) = beside_config (instance s)
  /\ beside_config (instance (setApiKey key s)) = beside_config (instance s)
  /\ console (instance (setApiKey key s)) = console (instance s)
  /\ client_environment (instance (setApiKey key s)) = client_environment (instance s)
  /\ (forall c, constructor (config (instance (setApiKey key s))) = Returned c ->
        client_environment c
        = match environment (config (instance s)) with
          | Some e => e
          | None => detectEnvironmentFromKey key
          end
        /\ console c = validateKeyEnvironment key (client_environment c)).
Proof.
  repeat match goal with |- _ /\ _ => split end; try reflexivity.
  intros c H. unfold constructor in H. destruct (negb _); [discriminate H |].
  injection H as <-. split; reflexivity.
Qed.

Lemma setters_keep_client_witness :
  client_environment (instance (setApiKey "mk_live_4f9a" plain_session)) = development
  /\ exists c, constructor (config (instance (setApiKey "mk_live_4f9a" plain_session)))
               = Returned c
               /\ client_environment c = production.
Proof.
  pose proof (setters_keep_client plain_session "t" "mk_live_4f9a") as H.
  destruct H as (_ & _ & _ & _ & Henv & Hctor).
  split; [exact Henv |].
  eexists. split; [reflexivity |].
  exact (proj1 (Hctor _ eq_refl)).
Defined.

End Credentials.
